(** * notes-api: a shallow embedding of the note service and its properties

    The development follows the layout of the Python package [app]:

    - [models/user.py], [models/note.py]   : the ORM classes [User], [Note]
    - [schemas/auth.py], [schemas/note.py] : the pydantic request/response shapes
    - [core/security.py]                   : password hashing and bearer tokens
    - [crud/user.py], [crud/note.py]       : the repository functions
    - [api/v1/auth.py], [api/v1/notes.py]  : the endpoint handlers

    The relational store is an explicit value [Database] that every function
    takes and, when it writes, returns.  Clock readings ([utc_now]) and the
    entropy used for password salts are inputs of the handlers. *)

From stdpp Require Import base option list strings pretty gmap.
From Stdlib Require Import ZArith Lia Ascii.

Local Open Scope Z_scope.

(** ** Python values *)

(** Timestamps ([datetime], timezone-aware UTC) as microseconds since the
    epoch. *)
Abbreviation datetime := Z (only parsing).

(** Python values: what [json.loads] hands to the validation layer, and what
    [model_dump] returns ([VDatetime] only occurs in the latter). *)
#[warnings="-register-all"]
Inductive value :=
  | VNone
  | VBool (b : bool)
  | VInt (z : Z)
  | VStr (s : string)
  | VDatetime (t : datetime)
  | VList (l : list value)
  | VDict (d : gmap string value).

(** Exceptions that no handler catches; the framework answers 500. *)
Inductive exn :=
  | IntegrityError          (* a NOT NULL constraint rejected the flush *)
  | DataError               (* the engine rejected a statement parameter *)
  | InvalidRequestError     (* [Session.refresh] found no row *)
  | ResponseValidationError (* the returned object does not fit [response_model] *).

Inductive result (A : Type) :=
  | Ok (a : A)
  | Raise (e : exn).
Arguments Ok {A} a.
Arguments Raise {A} e.

(** ** HTTP responses *)

Definition HTTP_200_OK : Z := 200.
Definition HTTP_201_CREATED : Z := 201.
Definition HTTP_204_NO_CONTENT : Z := 204.
Definition HTTP_400_BAD_REQUEST : Z := 400.
Definition HTTP_401_UNAUTHORIZED : Z := 401.
Definition HTTP_404_NOT_FOUND : Z := 404.
Definition HTTP_422_UNPROCESSABLE_ENTITY : Z := 422.
Definition HTTP_500_INTERNAL_SERVER_ERROR : Z := 500.

(** The outcome of one handler invocation, as the framework turns it into a
    response: the returned object with the route's status code, an
    [HTTPException] raised by the handler or one of its dependencies, a body
    that failed validation, or an uncaught exception. *)
Inductive Response (A : Type) :=
  | JSONResponse (status_code : Z) (content : A)
  | HTTPException (status_code : Z) (detail : string) (headers : list (string * string))
  | RequestValidationError
  | InternalServerError (e : exn).
Arguments JSONResponse {A} status_code content.
Arguments HTTPException {A} status_code detail headers.
Arguments RequestValidationError {A}.
Arguments InternalServerError {A} e.

Definition status_code {A} (r : Response A) : Z :=
  match r with
  | JSONResponse c _ => c
  | HTTPException c _ _ => c
  | RequestValidationError => HTTP_422_UNPROCESSABLE_ENTITY
  | InternalServerError _ => HTTP_500_INTERNAL_SERVER_ERROR
  end.

(** Re-type the content of a response (used when a route's handlers return
    different shapes). *)
Definition map_response {A B} (f : A → B) (r : Response A) : Response B :=
  match r with
  | JSONResponse c a => JSONResponse c (f a)
  | HTTPException c d h => HTTPException c d h
  | RequestValidationError => RequestValidationError
  | InternalServerError e => InternalServerError e
  end.

(** ** models *)

Module User.
(** [class User(Base)], table "users". *)
Record t := mk {
  id : Z;
  username : string;
  hashed_password : string;
  created_at : datetime;
}.
End User.
Abbreviation User := User.t.

Module Note.
(** [class Note(Base)], table "notes".  The record is the Python object;
    its [title] attribute can be assigned [None] although the column is
    declared [nullable=False]: the constraint is checked when the session
    flushes (see [crud_note.update_note]). *)
Record t := mk {
  id : Z;
  title : option string;
  body : option string;
  user_id : Z;
  created_at : datetime;
  updated_at : datetime;
}.

Definition set_title (v : option string) (n : t) : t :=
  mk (id n) v (body n) (user_id n) (created_at n) (updated_at n).
Definition set_body (v : option string) (n : t) : t :=
  mk (id n) (title n) v (user_id n) (created_at n) (updated_at n).
Definition set_updated_at (v : datetime) (n : t) : t :=
  mk (id n) (title n) (body n) (user_id n) (created_at n) v.
End Note.
Abbreviation Note := Note.t.

(** ** The storage collaborator

    The engine is the configured one, PostgreSQL.  Both tables are kept in
    the order in which a query without ORDER BY scans them.  The source does
    not determine where the engine places an inserted row or the new version
    of an updated row; the lists keep an inserted row last and an updated
    row in place, and what is stated below about a listing after a write is
    stated up to the order of its rows.  Primary keys come from the tables'
    sequences ([Integer, primary_key=True]): [*_id_seq] is the last value
    handed out, and a value is never handed out twice.

    The constraints that the models declare (primary keys, the unique
    username, NOT NULL) are invariants of the store, [db_wf] below.  The two
    that a request can run into are checked where a title is written
    ([crud_note.create_note], [crud_note.commit_update]): NOT NULL, and the
    width of [title], [String(255)], on which [NoteCreate] and [NoteUpdate]
    put no bound.  ([UserCreate] bounds the username by the width of its
    column; the length of a digest is the hashing implementation's.) *)
Record Database := mkDatabase {
  users : list User;
  users_id_seq : Z;
  notes : list Note;
  notes_id_seq : Z;
}.

Definition empty_db : Database := mkDatabase [] 0 [] 0.

Definition with_users (us : list User) (seq : Z) (db : Database) : Database :=
  mkDatabase us seq (notes db) (notes_id_seq db).
Definition with_notes (ns : list Note) (seq : Z) (db : Database) : Database :=
  mkDatabase (users db) (users_id_seq db) ns seq.

(** Strings are sequences of characters, one [ascii] each, and stand for
    text that the driver can send to the engine. *)
Fixpoint string_take (n : nat) (s : string) : string :=
  match n, s with
  | S n', String c s' => String c (string_take n' s')
  | _, _ => EmptyString
  end.

Fixpoint string_drop (n : nat) (s : string) : string :=
  match n, s with
  | S n', String _ s' => string_drop n' s'
  | _, _ => s
  end.

Fixpoint all_spaces (s : string) : bool :=
  match s with
  | EmptyString => true
  | String c s' => bool_decide (c = " "%char) && all_spaces s'
  end.

(** Storing [s] in a column of type [character varying(n)]: a longer string
    is an error ("value too long for type character varying"), unless the
    excess characters are all spaces, in which case the string is truncated
    to [n] characters. *)
Definition varchar (n : nat) (s : string) : result string :=
  if decide (String.length s ≤ n)%nat then Ok s
  else if all_spaces (string_drop n s) then Ok (string_take n s)
  else Raise DataError.

(** [title = Column(String(255), nullable=False)] of [models/note.py]. *)
Definition TITLE_WIDTH : nat := 255.

(** [Session.refresh(note)]: reload the object from its row, found by
    primary key. *)
Definition refresh_note (db : Database) (note_id : Z) : result Note :=
  match head (filter (λ r, Note.id r = note_id) (notes db)) with
  | Some r => Ok r
  | None => Raise InvalidRequestError
  end.

Definition refresh_user (db : Database) (user_id : Z) : result User :=
  match head (filter (λ r, User.id r = user_id) (users db)) with
  | Some r => Ok r
  | None => Raise InvalidRequestError
  end.

(** ** schemas *)

(** A field annotated [str]: only a string validates. *)
Definition validate_str (v : value) : option string :=
  match v with
  | VStr s => Some s
  | _ => None
  end.

(** A field annotated [Optional[str]]: [None] and strings validate. *)
Definition validate_optional_str (v : value) : option (option string) :=
  match v with
  | VNone => Some None
  | VStr s => Some (Some s)
  | _ => None
  end.

(** [Field(..., min_length=lo, max_length=hi)] on a [str]. *)
Definition validate_str_bounded (lo hi : nat) (v : value) : option string :=
  s ← validate_str v;
  if decide (lo ≤ String.length s ≤ hi)%nat then Some s else None.

Module NoteCreate.
(** [class NoteCreate(BaseModel)]: [title: str], [body: Optional[str] = None]. *)
Record t := mk {
  title : string;
  body : option string;
}.

Definition model_validate (payload : value) : option t :=
  match payload with
  | VDict d =>
      title ← d !! "title" ≫= validate_str;
      body ← from_option validate_optional_str (Some None) (d !! "body");
      Some (mk title body)
  | _ => None
  end.
End NoteCreate.
Abbreviation NoteCreate := NoteCreate.t.

Module NoteUpdate.
(** [class NoteUpdate(BaseModel)]: both fields [Optional[str] = None].
    pydantic records which fields the input supplied in
    [model_fields_set]; a field that was not supplied holds its default. *)
Record t := mk {
  title : option string;
  body : option string;
  model_fields_set : gset string;
}.

Definition model_validate (payload : value) : option t :=
  match payload with
  | VDict d =>
      title ← from_option validate_optional_str (Some None) (d !! "title");
      body ← from_option validate_optional_str (Some None) (d !! "body");
      Some (mk title body (dom d ∩ {[ "title"; "body" ]}))
  | _ => None
  end.

(** [model_dump(exclude_unset=True)]: the supplied fields, in declaration
    order, with their values. *)
Definition model_dump_exclude_unset (m : t) : list (string * option string) :=
  (if decide ("title" ∈ model_fields_set m) then [("title", title m)] else [])
  ++ (if decide ("body" ∈ model_fields_set m) then [("body", body m)] else []).
End NoteUpdate.
Abbreviation NoteUpdate := NoteUpdate.t.

Module NoteRead.
(** [class NoteRead(BaseModel)], the response model of the note routes;
    [title: str] is required to be a string. *)
Record t := mk {
  id : Z;
  title : string;
  body : option string;
  created_at : datetime;
  updated_at : datetime;
}.

(** Validation from the ORM object ([from_attributes=True]). *)
Definition model_validate (n : Note) : option t :=
  title ← Note.title n;
  Some (mk (Note.id n) title (Note.body n) (Note.created_at n) (Note.updated_at n)).
End NoteRead.
Abbreviation NoteRead := NoteRead.t.

Module UserCreate.
(** [class UserCreate(BaseModel)]: username of 3 to 50 characters, password
    of 6 to 72. *)
Record t := mk {
  username : string;
  password : string;
}.

Definition model_validate (payload : value) : option t :=
  match payload with
  | VDict d =>
      username ← d !! "username" ≫= validate_str_bounded 3 50;
      password ← d !! "password" ≫= validate_str_bounded 6 72;
      Some (mk username password)
  | _ => None
  end.
End UserCreate.
Abbreviation UserCreate := UserCreate.t.

Module UserLogin.
(** [class UserLogin(BaseModel)]. *)
Record t := mk {
  username : string;
  password : string;
}.

Definition model_validate (payload : value) : option t :=
  match payload with
  | VDict d =>
      username ← d !! "username" ≫= validate_str;
      password ← d !! "password" ≫= validate_str;
      Some (mk username password)
  | _ => None
  end.
End UserLogin.
Abbreviation UserLogin := UserLogin.t.

Module Token.
(** [class Token(BaseModel)]. *)
Record t := mk {
  access_token : string;
  token_type : string;
}.
End Token.
Abbreviation Token := Token.t.

Module UserRead.
(** [class UserRead(BaseModel)], the response model of [/auth/register]. *)
Record t := mk {
  id : Z;
  username : string;
  created_at : datetime;
}.

(** Validation from the ORM object ([from_attributes=True]): the three
    declared attributes are read, nothing else is. *)
Definition model_validate (u : User) : t :=
  mk (User.id u) (User.username u) (User.created_at u).

(** [model_dump()]: the dictionary that is serialised as the response
    body. *)
Definition model_dump (m : t) : gmap string value :=
  {[ "id" := VInt (id m);
     "username" := VStr (username m);
     "created_at" := VDatetime (created_at m) ]}.
End UserRead.
Abbreviation UserRead := UserRead.t.

(** ** core *)

(** [settings.ACCESS_TOKEN_EXPIRE_MINUTES] of [core/config.py]. *)
Definition ACCESS_TOKEN_EXPIRE_MINUTES : Z := 30.

(** [core/security.py] is imported by the handlers and the repository; its
    code is not part of the sources embedded here.  Its primitives are the
    operations of a class, so that every function below is defined for any
    implementation of them:
    - [get_password_hash salt password]: the digest stored for [password];
      [salt] is the entropy drawn for this call;
    - [verify_password password digest];
    - [create_access_token sub expires_delta now]: the token for
      [data={"sub": sub}] issued at clock reading [now] with a lifetime of
      [expires_delta] minutes;
    - [decode_access_token token]: subject and absolute expiry of a token
      that is well formed and carries a valid signature of the process
      secret, [None] for any other string. *)
Class Security := {
  get_password_hash : string → string → string;
  verify_password : string → string → bool;
  create_access_token : string → Z → datetime → string;
  decode_access_token : string → option (string * datetime);
}.

(** ** crud/user.py *)

Module crud_user.
Section crud_user.
Context `{!Security}.

(** [db.query(User).filter(User.username == username).first()] *)
Definition get_user_by_username (db : Database) (username : string) : option User :=
  head (filter (λ u, User.username u = username) (users db)).

Definition create_user (db : Database) (salt : string) (user_in : UserCreate)
    (now : datetime) : result User * Database :=
  let hashed_password := get_password_hash salt (UserCreate.password user_in) in
  let db_user :=
    User.mk (users_id_seq db + 1) (UserCreate.username user_in) hashed_password now in
  let db' := with_users (users db ++ [db_user]) (users_id_seq db + 1) db in
  (refresh_user db' (User.id db_user), db').

Definition authenticate_user (db : Database) (username password : string) : option User :=
  match get_user_by_username db username with
  | None => None
  | Some user =>
      if verify_password password (User.hashed_password user) then Some user
      else None
  end.
End crud_user.
End crud_user.

(** ** crud/note.py *)

Module crud_note.

(** [db.query(Note).filter(Note.id == note_id, Note.user_id == user_id).first()] *)
Definition get_note (db : Database) (note_id user_id : Z) : option Note :=
  head (filter (λ r, Note.id r = note_id ∧ Note.user_id r = user_id) (notes db)).

(** [db.query(Note).filter(Note.user_id == user_id).offset(skip).limit(limit).all()];
    the engine rejects a negative OFFSET or LIMIT. *)
Definition get_notes (db : Database) (user_id skip limit : Z) : result (list Note) :=
  if decide (skip < 0 ∨ limit < 0) then Raise DataError
  else Ok (take (Z.to_nat limit)
             (drop (Z.to_nat skip)
                (filter (λ r, Note.user_id r = user_id) (notes db)))).

(** The INSERT stores the title in its [String(255)] column, or is rejected
    when the title does not fit; it takes the id from the sequence and both
    timestamps from the column default [utc_now], read at [now]. *)
Definition create_note (db : Database) (note_in : NoteCreate) (user_id : Z)
    (now : datetime) : result Note * Database :=
  match varchar TITLE_WIDTH (NoteCreate.title note_in) with
  | Raise e => (Raise e, db)
  | Ok title =>
      let db_note :=
        Note.mk (notes_id_seq db + 1) (Some title)
          (NoteCreate.body note_in) user_id now now in
      let db' := with_notes (notes db ++ [db_note]) (notes_id_seq db + 1) db in
      (refresh_note db' (Note.id db_note), db')
  end.

(** [setattr(note, field, value)] for the two fields of [NoteUpdate]. *)
Definition setattr (note : Note) (field : string) (v : option string) : Note :=
  if decide (field = "title") then Note.set_title v note
  else if decide (field = "body") then Note.set_body v note
  else note.

(** The [for field, value in update_data.items()] loop. *)
Definition apply_update_data (note : Note) (update_data : list (string * option string)) : Note :=
  foldl (λ n fv, setattr n fv.1 fv.2) note update_data.

(** The UPDATE statement of a flush, for a row [r]: the columns in which
    [note] differs from [loaded] are written with the values of [note], and
    [onupdate=utc_now] sets [updated_at]. *)
Definition update_row (loaded note : Note) (now : datetime) (r : Note) : Note :=
  let r := if decide (Note.title note = Note.title loaded) then r
           else Note.set_title (Note.title note) r in
  let r := if decide (Note.body note = Note.body loaded) then r
           else Note.set_body (Note.body note) r in
  Note.set_updated_at now r.

(** The rows of the table after [UPDATE notes SET ... WHERE notes.id = :id]
    for the object [note] that was [loaded] from the row with that id. *)
Definition updated_rows (loaded note : Note) (now : datetime) (rows : list Note) : list Note :=
  (λ r, if decide (Note.id r = Note.id loaded) then update_row loaded note now r else r)
    <$> rows.

(** The values that the engine stores for the columns of an UPDATE: a title
    that the object changed is rejected when it is NULL ([nullable=False])
    or does not fit [String(255)], and is truncated when its excess is
    spaces; the body is [Text] and is stored as it is.  The result is the
    object with the title as stored. *)
Definition flushed (loaded note : Note) : result Note :=
  if decide (Note.title note = Note.title loaded) then Ok note
  else match Note.title note with
       | None => Raise IntegrityError
       | Some t =>
           match varchar TITLE_WIDTH t with
           | Raise e => Raise e
           | Ok t' => Ok (Note.set_title (Some t') note)
           end
       end.

(** [db.commit()] after the attribute assignments.  The session's unit of
    work compares the object [note] with the state it was [loaded] in: when
    no column value differs the object is clean and no statement is sent
    (so no [onupdate] default is evaluated); otherwise one UPDATE goes to
    the row with the object's primary key, with the values as the engine
    stores them, or is rejected by the engine. *)
Definition commit_update (db : Database) (loaded note : Note) (now : datetime) : result Database :=
  if decide (Note.title note = Note.title loaded ∧ Note.body note = Note.body loaded)
  then Ok db
  else match flushed loaded note with
       | Raise e => Raise e
       | Ok stored =>
           Ok (with_notes (updated_rows loaded stored now (notes db)) (notes_id_seq db) db)
       end.

Definition update_note (db : Database) (note : Note) (note_in : NoteUpdate)
    (now : datetime) : result Note * Database :=
  let update_data := NoteUpdate.model_dump_exclude_unset note_in in
  let note' := apply_update_data note update_data in
  match commit_update db note note' now with
  | Raise e => (Raise e, db)
  | Ok db' => (refresh_note db' (Note.id note), db')
  end.

(** [db.delete(note); db.commit()]: DELETE by primary key. *)
Definition delete_note (db : Database) (note : Note) : Database :=
  with_notes (filter (λ r, Note.id r ≠ Note.id note) (notes db)) (notes_id_seq db) db.

End crud_note.

(** ** api/v1/notes.py

    The handlers take the resolved dependency [current_user]; a returned ORM
    object is validated against the route's [response_model]. *)

Module api_notes.

Definition not_found {A} (note_id : Z) : Response A :=
  HTTPException HTTP_404_NOT_FOUND
    ("Note with id " +:+ pretty note_id +:+ " not found") [].

Definition respond_note (status : Z) (r : result Note) : Response NoteRead :=
  match r with
  | Raise e => InternalServerError e
  | Ok n =>
      match NoteRead.model_validate n with
      | Some content => JSONResponse status content
      | None => InternalServerError ResponseValidationError
      end
  end.

Definition create_note (db : Database) (note_in : NoteCreate) (current_user : User)
    (now : datetime) : Response NoteRead * Database :=
  let '(r, db') := crud_note.create_note db note_in (User.id current_user) now in
  (respond_note HTTP_201_CREATED r, db').

Definition read_notes (db : Database) (skip limit : Z) (current_user : User)
    : Response (list NoteRead) :=
  match crud_note.get_notes db (User.id current_user) skip limit with
  | Raise e => InternalServerError e
  | Ok l =>
      match mapM NoteRead.model_validate l with
      | Some content => JSONResponse HTTP_200_OK content
      | None => InternalServerError ResponseValidationError
      end
  end.

Definition read_note (db : Database) (note_id : Z) (current_user : User)
    : Response NoteRead :=
  match crud_note.get_note db note_id (User.id current_user) with
  | None => not_found note_id
  | Some note => respond_note HTTP_200_OK (Ok note)
  end.

Definition update_note (db : Database) (note_id : Z) (note_in : NoteUpdate)
    (current_user : User) (now : datetime) : Response NoteRead * Database :=
  match crud_note.get_note db note_id (User.id current_user) with
  | None => (not_found note_id, db)
  | Some note =>
      let '(r, db') := crud_note.update_note db note note_in now in
      (respond_note HTTP_200_OK r, db')
  end.

Definition delete_note (db : Database) (note_id : Z) (current_user : User)
    : Response unit * Database :=
  match crud_note.get_note db note_id (User.id current_user) with
  | None => (not_found note_id, db)
  | Some note => (JSONResponse HTTP_204_NO_CONTENT (), crud_note.delete_note db note)
  end.

End api_notes.

(** ** api/v1/auth.py *)

Module api_auth.
Section api_auth.
Context `{!Security}.

Definition register (db : Database) (salt : string) (user_in : UserCreate)
    (now : datetime) : Response UserRead * Database :=
  match crud_user.get_user_by_username db (UserCreate.username user_in) with
  | Some existing_user =>
      (HTTPException HTTP_400_BAD_REQUEST "Username already registered" [], db)
  | None =>
      match crud_user.create_user db salt user_in now with
      | (Ok user, db') => (JSONResponse HTTP_201_CREATED (UserRead.model_validate user), db')
      | (Raise e, db') => (InternalServerError e, db')
      end
  end.

Definition login (db : Database) (user_login : UserLogin) (now : datetime)
    : Response Token :=
  match crud_user.authenticate_user db (UserLogin.username user_login)
          (UserLogin.password user_login) with
  | None =>
      HTTPException HTTP_401_UNAUTHORIZED "Incorrect username or password"
        [("WWW-Authenticate", "Bearer")]
  | Some user =>
      let access_token :=
        create_access_token (User.username user) ACCESS_TOKEN_EXPIRE_MINUTES now in
      JSONResponse HTTP_200_OK (Token.mk access_token "bearer")
  end.
End api_auth.
End api_auth.

(** ** Bearer authentication of the note routes

    [get_current_user] is imported from [core/security.py], whose code is
    not part of the sources embedded here; the definitions of this part
    follow the specification. *)

Fixpoint strip_prefix (p s : string) : option string :=
  match p, s with
  | EmptyString, _ => Some s
  | String a p', String b s' => if decide (a = b) then strip_prefix p' s' else None
  | String _ _, EmptyString => None
  end.

(** Modelled from the spec: the header [Authorization: Bearer <token>]
    (section 6); [core/security.py], which reads it, is missing.  The token
    is what follows the scheme. *)
Definition bearer_token (authorization : option string) : option string :=
  authorization ≫= strip_prefix "Bearer ".

Section security.
Context `{!Security}.

(** Modelled from the spec: Token Service [verify(token) -> subject | fails]
    (section 4.2) of the missing [core/security.py]: it fails when the
    token is malformed or its signature does not verify
    ([decode_access_token] gives nothing), or when the encoded expiry is in
    the past; otherwise it returns the encoded subject. *)
Definition verify_token (now : datetime) (token : string) : option string :=
  match decode_access_token token with
  | None => None
  | Some (sub, exp) => if decide (exp < now) then None else Some sub
  end.

(** Modelled from the spec: the dependency [get_current_user] of the
    missing [core/security.py] (section 4.6): the bearer token is resolved
    to a [User] through the Token Service; an absent or invalid token is
    answered 401 before any repository access.  The result is the user or
    the error of the taxonomy of section 7. *)
Definition get_current_user (db : Database) (now : datetime)
    (authorization : option string) : User + string :=
  match bearer_token authorization with
  | None => inr "Unauthenticated"
  | Some token =>
      match verify_token now token with
      | None => inr "InvalidToken"
      | Some sub =>
          match crud_user.get_user_by_username db sub with
          | None => inr "InvalidToken"
          | Some user => inl user
          end
      end
  end.
End security.

(** The five routes mounted under [/notes], with the request data that
    reaches the application: the parsed JSON body, path and query
    parameters. *)
Inductive NotesRequest :=
  | POST_notes (payload : value)
  | GET_notes (skip limit : Z)
  | GET_note (note_id : Z)
  | PUT_note (note_id : Z) (payload : value)
  | DELETE_note (note_id : Z).

(** The content of a response of the note routes. *)
Inductive NotesContent :=
  | OneNote (n : NoteRead)
  | NoteList (l : list NoteRead)
  | NoContent.

Section notes_routes.
Context `{!Security}.

(** Modelled from the spec: the dispatch of a request to a note route
    (sections 4.6 and 9; the sources only declare
    [Depends(get_current_user)], whose code is missing): the caller is
    resolved first, a failure is answered 401; then the body is validated
    into the handler's shape; then the handler runs. *)
Definition notes_route (db : Database) (now : datetime)
    (authorization : option string) (req : NotesRequest)
    : Response NotesContent * Database :=
  match get_current_user db now authorization with
  | inr detail => (HTTPException HTTP_401_UNAUTHORIZED detail [], db)
  | inl current_user =>
      match req with
      | POST_notes payload =>
          match NoteCreate.model_validate payload with
          | None => (RequestValidationError, db)
          | Some note_in =>
              let '(r, db') := api_notes.create_note db note_in current_user now in
              (map_response OneNote r, db')
          end
      | GET_notes skip limit =>
          (map_response NoteList (api_notes.read_notes db skip limit current_user), db)
      | GET_note note_id =>
          (map_response OneNote (api_notes.read_note db note_id current_user), db)
      | PUT_note note_id payload =>
          match NoteUpdate.model_validate payload with
          | None => (RequestValidationError, db)
          | Some note_in =>
              let '(r, db') := api_notes.update_note db note_id note_in current_user now in
              (map_response OneNote r, db')
          end
      | DELETE_note note_id =>
          let '(r, db') := api_notes.delete_note db note_id current_user in
          (map_response (λ _, NoContent) r, db')
      end
  end.
End notes_routes.

(** ** An implementation of [Security] for concrete runs

    Digests and tokens are readable strings here; the theorems are stated
    for every implementation, and this one instantiates them on examples. *)
Definition demo_decode (token : string) : option (string * datetime) :=
  if decide (token = "alice.1800000000") then Some ("alice", 1800000000)
  else if decide (token = "alice.5") then Some ("alice", 5)
  else None.

Definition demo_security : Security := {|
  get_password_hash salt password := password +:+ "$" +:+ salt;
  verify_password password digest :=
    bool_decide (is_Some (strip_prefix (password +:+ "$") digest));
  create_access_token sub expires_delta now :=
    sub +:+ "." +:+ pretty (now + expires_delta * 60000000);
  decode_access_token := demo_decode;
|}.

(** ** Handler invocations and runs

    One [Call] is one invocation of a handler with its dependencies
    resolved; [exec] is its effect on the store and [run] the effect of a
    sequence of invocations, each with the clock reading it is served at. *)

Inductive Call :=
  | Register (salt : string) (user_in : UserCreate)
  | Login (user_login : UserLogin)
  | CreateNote (note_in : NoteCreate) (current_user : User)
  | ReadNotes (skip limit : Z) (current_user : User)
  | ReadNote (note_id : Z) (current_user : User)
  | UpdateNote (note_id : Z) (note_in : NoteUpdate) (current_user : User)
  | DeleteNote (note_id : Z) (current_user : User).

Section runs.
Context `{!Security}.

Definition exec (db : Database) (now : datetime) (c : Call) : Database :=
  match c with
  | Register salt user_in => (api_auth.register db salt user_in now).2
  | Login _ => db
  | CreateNote note_in u => (api_notes.create_note db note_in u now).2
  | ReadNotes _ _ _ => db
  | ReadNote _ _ => db
  | UpdateNote note_id note_in u => (api_notes.update_note db note_id note_in u now).2
  | DeleteNote note_id u => (api_notes.delete_note db note_id u).2
  end.

Definition run (calls : list (datetime * Call)) (db : Database) : Database :=
  foldl (λ db c, exec db c.1 c.2) db calls.
End runs.

(** ** Writes

    The statements that the handlers send to the store and the store
    accepts: the INSERT of a user whose name is not taken, the INSERT of a
    note, the UPDATE of a loaded note that does not null a title, and the
    DELETE of a note. *)
Section writes.
Context `{!Security}.

Inductive write (db : Database) : Database → Prop :=
  | write_user salt user_in now :
      crud_user.get_user_by_username db (UserCreate.username user_in) = None →
      write db (crud_user.create_user db salt user_in now).2
  | write_note title body user_id now :
      write db (with_notes
                  (notes db ++ [Note.mk (notes_id_seq db + 1) (Some title) body
                                  user_id now now])
                  (notes_id_seq db + 1) db)
  | write_update loaded note now :
      loaded ∈ notes db →
      (Note.title note = None → Note.title loaded = None) →
      write db (with_notes (crud_note.updated_rows loaded note now (notes db))
                  (notes_id_seq db) db)
  | write_delete note :
      write db (crud_note.delete_note db note).
End writes.

(** ** Invariants of the store

    The constraints declared by the models (primary keys, the unique
    username, the NOT NULL title) and the sequences' property that every id
    in a table has been handed out. *)
Record db_wf (db : Database) : Prop := {
  wf_notes_seq : ∀ r, r ∈ notes db → Note.id r ≤ notes_id_seq db;
  wf_notes_pk : NoDup (Note.id <$> notes db);
  wf_notes_title : ∀ r, r ∈ notes db → is_Some (Note.title r);
  wf_users_seq : ∀ u, u ∈ users db → User.id u ≤ users_id_seq db;
  wf_users_pk : NoDup (User.id <$> users db);
  wf_users_username : NoDup (User.username <$> users db);
}.

(** [keys_from db db']: the notes of [db'] are notes of [db], with the same
    id and owner, or carry an id that the sequence had not handed out in
    [db]; and the sequence has not gone back. *)
Definition keys_from (db db' : Database) : Prop :=
  notes_id_seq db ≤ notes_id_seq db'
  ∧ ∀ r', r' ∈ notes db' →
      (∃ r, r ∈ notes db ∧ Note.id r = Note.id r' ∧ Note.user_id r = Note.user_id r')
      ∨ notes_id_seq db < Note.id r'.

(** ** Error details

    [contains sub s]: Python's [sub in s] on strings. *)
Fixpoint contains (sub s : string) : bool :=
  match strip_prefix sub s with
  | Some _ => true
  | None =>
      match s with
      | EmptyString => false
      | String _ s' => contains sub s'
      end
  end.

(** The response of [login] for credentials that do not authenticate. *)
Definition incorrect_credentials {A} : Response A :=
  HTTPException HTTP_401_UNAUTHORIZED "Incorrect username or password"
    [("WWW-Authenticate", "Bearer")].

(** The Credential Store accepts the password a digest was made from
    (specification, section 4.1). *)
Definition verify_accepts_own_hash `{!Security} : Prop :=
  ∀ salt password, verify_password password (get_password_hash salt password) = true.

(** The row that a registration inserts. *)
Definition registered `{!Security} (db : Database) (salt : string) (user_in : UserCreate)
    (now : datetime) : User :=
  User.mk (users_id_seq db + 1) (UserCreate.username user_in)
    (get_password_hash salt (UserCreate.password user_in)) now.

(** The rows that [user_id] owns, in storage order: the query of
    [crud_note.get_notes] before OFFSET and LIMIT. *)
Definition notes_of (db : Database) (user_id : Z) : list Note :=
  filter (λ r, Note.user_id r = user_id) (notes db).

(** [listed rows l]: the listing [l] is the validation of [rows] against
    [NoteRead], element by element. *)
Definition listed (rows : list Note) (l : list NoteRead) : Prop :=
  Forall2 (λ r x, NoteRead.model_validate r = Some x) rows l.

(** ** A concrete store

    Two registered users with one note each, as [demo_security] would have
    produced them; used to run the model on examples. *)
Definition alice : User := User.mk 1 "alice" "secret1$s1" 10.
Definition bob : User := User.mk 2 "bob" "hunter22$s2" 20.

Definition shopping : Note := Note.mk 1 (Some "Shopping") (Some "milk") 1 100 100.
Definition ideas : Note := Note.mk 2 (Some "Ideas") None 2 110 110.

Definition demo_db : Database := mkDatabase [alice; bob] 2 [shopping; ideas] 2.

(** ** Outcomes of a flush

    The four outcomes of [crud_note.commit_update], with what each says
    about the object and the state it was loaded in. *)
Inductive commit_outcome (db : Database) (loaded note : Note) (now : datetime)
    : result Database → Prop :=
  | commit_clean :
      Note.title note = Note.title loaded → Note.body note = Note.body loaded →
      commit_outcome db loaded note now (Ok db)
  | commit_rejected :
      Note.title note = None → Note.title loaded ≠ None →
      commit_outcome db loaded note now (Raise IntegrityError)
  | commit_too_long t e :
      Note.title note = Some t → Note.title note ≠ Note.title loaded →
      varchar TITLE_WIDTH t = Raise e →
      commit_outcome db loaded note now (Raise e)
  | commit_written stored :
      ¬ (Note.title note = Note.title loaded ∧ Note.body note = Note.body loaded) →
      crud_note.flushed loaded note = Ok stored →
      commit_outcome db loaded note now
        (Ok (with_notes (crud_note.updated_rows loaded stored now (notes db))
               (notes_id_seq db) db)).

(** The title of a creation fits its column. *)
Definition title_fits (t : string) : Prop := (String.length t ≤ TITLE_WIDTH)%nat.

(** The title that an update payload sets, if any, fits its column. *)
Definition payload_title_fits (note_in : NoteUpdate) : Prop :=
  ∀ t, "title" ∈ NoteUpdate.model_fields_set note_in →
       NoteUpdate.title note_in = Some t → title_fits t.

(** A title of 256 characters, and one of 255 characters followed by a
    space. *)
Definition title_256 : string := String.string_of_list_ascii (replicate 256 "x"%char).
Definition title_255_space : string :=
  String.string_of_list_ascii (replicate 255 "x"%char ++ [" "%char]).

(** ** Payloads of an update

    [changes_note note_in n]: the payload sets a field to a value that
    differs from the one [n] holds. *)
Definition changes_note (note_in : NoteUpdate) (n : Note) : Prop :=
  ("title" ∈ NoteUpdate.model_fields_set note_in ∧ NoteUpdate.title note_in ≠ Note.title n)
  ∨ ("body" ∈ NoteUpdate.model_fields_set note_in ∧ NoteUpdate.body note_in ≠ Note.body n).

(** The payload does not set the title to [None]. *)
Definition keeps_title (note_in : NoteUpdate) : Prop :=
  "title" ∈ NoteUpdate.model_fields_set note_in → NoteUpdate.title note_in ≠ None.


(** * Lemmas *)

(** ** Queries: [.filter(...).first()] *)

Section first.
Context {A : Type} (P : A → Prop) `{!∀ x, Decision (P x)}.

Lemma first_Some l x : head (filter P l) = Some x → x ∈ l ∧ P x.
Proof.
  intros Hh. apply head_Some_elem_of in Hh.
  by apply list_elem_of_filter in Hh as [? ?].
Qed.

Lemma first_None l : head (filter P l) = None ↔ ∀ x, x ∈ l → ¬ P x.
Proof.
  rewrite head_None. split.
  - intros Hnil x Hx HP.
    assert (x ∈ filter P l) as Hin by (apply list_elem_of_filter; done).
    rewrite Hnil in Hin. by apply not_elem_of_nil in Hin.
  - intros Hno. destruct (filter P l) as [|y l'] eqn:E; [done|].
    assert (y ∈ filter P l) as Hin by (rewrite E; left).
    apply list_elem_of_filter in Hin as [HP Hy]. by destruct (Hno y).
Qed.

Lemma first_is_Some l x : x ∈ l → P x → is_Some (head (filter P l)).
Proof.
  intros Hx HP. destruct (head (filter P l)) eqn:E; [eauto|].
  rewrite first_None in E. by destruct (E x).
Qed.

Lemma first_snoc_fresh l x :
  (∀ y, y ∈ l → ¬ P y) → P x → head (filter P (l ++ [x])) = Some x.
Proof.
  intros Hno HP. rewrite filter_app.
  apply first_None in Hno. apply head_None in Hno. rewrite Hno. simpl.
  rewrite filter_cons_True by done. done.
Qed.

Lemma first_snoc_other l x :
  ¬ P x → head (filter P (l ++ [x])) = head (filter P l).
Proof.
  intros HP. rewrite filter_app, filter_cons_False by done.
  by rewrite filter_nil, app_nil_r.
Qed.
End first.

Lemma first_fmap_stable {A : Type} (P : A → Prop) `{!∀ x, Decision (P x)}
    (f : A → A) (l : list A) :
  (∀ x, P (f x) ↔ P x) → head (filter P (f <$> l)) = f <$> head (filter P l).
Proof.
  intros Hf. induction l as [|x l IH]; [done|].
  rewrite fmap_cons. destruct (decide (P x)) as [HP|HP].
  - rewrite (filter_cons_True P (f x)) by (by apply Hf).
    rewrite (filter_cons_True P x) by done. done.
  - rewrite (filter_cons_False P (f x)) by (by rewrite Hf).
    rewrite (filter_cons_False P x) by done. done.
Qed.

(** ** The assignment loop of [update_note] *)

Section assignment.
Import crud_note.

Lemma apply_update_data_spec (note : Note) (note_in : NoteUpdate) :
  apply_update_data note (NoteUpdate.model_dump_exclude_unset note_in)
  = Note.mk (Note.id note)
      (if decide ("title" ∈ NoteUpdate.model_fields_set note_in)
       then NoteUpdate.title note_in else Note.title note)
      (if decide ("body" ∈ NoteUpdate.model_fields_set note_in)
       then NoteUpdate.body note_in else Note.body note)
      (Note.user_id note) (Note.created_at note) (Note.updated_at note).
Proof.
  unfold apply_update_data, NoteUpdate.model_dump_exclude_unset.
  destruct note. repeat case_decide; reflexivity.
Qed.
End assignment.

(** ** The UPDATE of a flush *)

Section flush.
Import crud_note.

Lemma update_row_id loaded note now r :
  Note.id (update_row loaded note now r) = Note.id r.
Proof. unfold update_row. by repeat case_decide. Qed.

Lemma update_row_user_id loaded note now r :
  Note.user_id (update_row loaded note now r) = Note.user_id r.
Proof. unfold update_row. by repeat case_decide. Qed.

Lemma update_row_created_at loaded note now r :
  Note.created_at (update_row loaded note now r) = Note.created_at r.
Proof. unfold update_row. by repeat case_decide. Qed.

Lemma update_row_updated_at loaded note now r :
  Note.updated_at (update_row loaded note now r) = now.
Proof. unfold update_row. by repeat case_decide. Qed.

Lemma update_row_title loaded note now :
  Note.title (update_row loaded note now loaded) = Note.title note.
Proof. unfold update_row. repeat case_decide; simpl; congruence. Qed.

Lemma update_row_body loaded note now :
  Note.body (update_row loaded note now loaded) = Note.body note.
Proof. unfold update_row. repeat case_decide; simpl; congruence. Qed.

Lemma varchar_fits n s : (String.length s ≤ n)%nat → varchar n s = Ok s.
Proof. intros Hl. unfold varchar. by rewrite decide_True. Qed.

Lemma varchar_Raise n s e :
  varchar n s = Raise e → e = DataError ∧ (n < String.length s)%nat.
Proof.
  unfold varchar. case_decide as Hl; [done|].
  destruct (all_spaces (string_drop n s)); [done|].
  intros [= <-]. split; [done|lia].
Qed.

Lemma string_take_length n s : (String.length (string_take n s) ≤ n)%nat.
Proof.
  revert s. induction n as [|n IH]; intros [|c s]; simpl; try lia.
  specialize (IH s). lia.
Qed.

Lemma varchar_Ok_length n s s' :
  varchar n s = Ok s' → (String.length s' ≤ n)%nat.
Proof.
  unfold varchar. case_decide as Hl; [by intros [= <-]|].
  destruct (all_spaces (string_drop n s)); [|done].
  intros [= <-]. apply string_take_length.
Qed.

(** What the engine stores for an accepted UPDATE: the object, with a title
    that is the object's own whenever that one fits the column. *)
Lemma flushed_Ok loaded note stored :
  flushed loaded note = Ok stored →
  Note.id stored = Note.id note ∧ Note.body stored = Note.body note
  ∧ (Note.title stored = None → Note.title loaded = None)
  ∧ (Note.title note = Note.title loaded → Note.title stored = Note.title note)
  ∧ ((∀ t, Note.title note = Some t → title_fits t) →
     Note.title stored = Note.title note).
Proof.
  unfold flushed. case_decide as Ht.
  { intros [= <-]. split_and!; try done. congruence. }
  destruct (Note.title note) as [t|] eqn:Etitle; [|done].
  destruct (varchar TITLE_WIDTH t) as [t'|e] eqn:Ev; [|done].
  intros [= <-]. split_and!; try done.
  intros Hfit. simpl. rewrite varchar_fits in Ev by (by apply Hfit).
  congruence.
Qed.

Lemma commit_update_outcome db loaded note now :
  commit_outcome db loaded note now (commit_update db loaded note now).
Proof.
  unfold commit_update.
  destruct (decide (Note.title note = Note.title loaded
                    ∧ Note.body note = Note.body loaded)) as [[Ht Hb]|Hch].
  { by constructor. }
  destruct (flushed loaded note) as [stored|e] eqn:Ef.
  { by constructor. }
  unfold flushed in Ef. case_decide as Ht; [done|].
  destruct (Note.title note) as [t|] eqn:Etitle.
  - destruct (varchar TITLE_WIDTH t) as [t'|e'] eqn:Ev; [done|].
    injection Ef as <-. apply (commit_too_long _ _ _ _ t); [done|congruence|done].
  - injection Ef as <-. apply commit_rejected; [done|congruence].
Qed.

Lemma get_note_updated_rows db loaded note now note_id user_id :
  get_note (with_notes (updated_rows loaded note now (notes db)) (notes_id_seq db) db)
    note_id user_id
  = (λ r, if decide (Note.id r = Note.id loaded) then update_row loaded note now r else r)
      <$> get_note db note_id user_id.
Proof.
  unfold get_note, updated_rows. simpl. apply first_fmap_stable.
  intros x. case_decide; [|done].
  by rewrite update_row_id, update_row_user_id.
Qed.

Lemma elem_of_updated_rows_other loaded note now rows r :
  Note.id r ≠ Note.id loaded →
  r ∈ updated_rows loaded note now rows ↔ r ∈ rows.
Proof.
  intros Hne. unfold updated_rows. rewrite list_elem_of_fmap. split.
  - intros (y & -> & Hy). case_decide as Hd; [|done].
    rewrite update_row_id in Hne. done.
  - intros Hr. exists r. split; [|done]. by rewrite decide_False.
Qed.

Lemma get_note_Some db note_id user_id n :
  get_note db note_id user_id = Some n →
  n ∈ notes db ∧ Note.id n = note_id ∧ Note.user_id n = user_id.
Proof. intros Hg. apply first_Some in Hg. naive_solver. Qed.

Lemma get_note_None db note_id user_id :
  get_note db note_id user_id = None ↔
  ∀ r, r ∈ notes db → Note.id r = note_id → Note.user_id r ≠ user_id.
Proof.
  unfold get_note. rewrite first_None. split.
  - intros Hx r Hr Hi Hu. by apply (Hx r Hr).
  - intros Hx r Hr [Hi Hu]. by apply (Hx r Hr Hi).
Qed.
End flush.

(** ** Partial update *)

Section partial_update.
Import crud_note.

(** What [crud_note.update_note] leaves in the store for the note it was
    given: the loaded row itself when nothing was sent or the flush was
    rejected (a title set to NULL, or a title that does not fit its
    column); otherwise that row with the values as stored and a new
    [updated_at]. *)
Lemma update_note_store db note_id user_id n note_in now :
  get_note db note_id user_id = Some n →
  let note' := apply_update_data n (NoteUpdate.model_dump_exclude_unset note_in) in
  let out := update_note db n note_in now in
  users out.2 = users db ∧ users_id_seq out.2 = users_id_seq db
  ∧ notes_id_seq out.2 = notes_id_seq db
  ∧ (∀ r, Note.id r ≠ note_id → r ∈ notes out.2 ↔ r ∈ notes db)
  ∧ ((get_note out.2 note_id user_id = Some n
      ∧ Note.title note' = Note.title n ∧ Note.body note' = Note.body n)
     ∨ (get_note out.2 note_id user_id = Some n
        ∧ out.1 = Raise IntegrityError
        ∧ Note.title note' = None ∧ Note.title n ≠ None)
     ∨ (get_note out.2 note_id user_id = Some n
        ∧ out.1 = Raise DataError
        ∧ ∃ t, Note.title note' = Some t ∧ Note.title note' ≠ Note.title n
               ∧ ¬ title_fits t)
     ∨ (∃ stored, flushed n note' = Ok stored
        ∧ get_note out.2 note_id user_id = Some (update_row n stored now n)
        ∧ ¬ (Note.title note' = Note.title n ∧ Note.body note' = Note.body n))).
Proof.
  intros Hg note' out. subst out. unfold update_note. fold note'.
  destruct (get_note_Some _ _ _ _ Hg) as (Hin & Hid & Hu).
  destruct (commit_update_outcome db n note' now)
    as [Ht Hb|Hn Hl|t e Ht Hd Hv|stored Hch Hf]; simpl.
  - split_and!; try done. by left.
  - split_and!; try done. right; left. done.
  - split_and!; try done. right; right; left.
    apply varchar_Raise in Hv as [-> Hlong].
    split_and!; try done. exists t. split_and!; try done.
    unfold title_fits. lia.
  - split_and!; try done.
    + intros r Hr. by apply elem_of_updated_rows_other; rewrite Hid.
    + right; right; right. exists stored. split; [done|].
      rewrite get_note_updated_rows, Hg. simpl.
      by rewrite decide_True.
Qed.
End partial_update.

(** C4.  Partial update applies only the fields present in the payload.
    For a note [n] that the caller can reach, after the update handler has
    run the note is still reachable under the same id and owner; its id,
    owner and creation timestamp are those of [n]; a field that the payload
    does not set keeps the value it had (so a title-only update leaves the
    body, and a body-only update leaves the title); when the handler answers
    200 the body, if the payload sets it, holds the payload's value, and so
    does the title, if the payload sets it to a value of at most 255
    characters; the users table and every other note are untouched. *)
Theorem partial_update_applies_only_present_fields
    (db : Database) (note_id : Z) (note_in : NoteUpdate) (u : User) (now : datetime)
    (n : Note) :
  crud_note.get_note db note_id (User.id u) = Some n →
  let out := api_notes.update_note db note_id note_in u now in
  ∃ n', crud_note.get_note out.2 note_id (User.id u) = Some n'
    ∧ Note.id n' = Note.id n
    ∧ Note.user_id n' = Note.user_id n
    ∧ Note.created_at n' = Note.created_at n
    ∧ ("title" ∉ NoteUpdate.model_fields_set note_in → Note.title n' = Note.title n)
    ∧ ("body" ∉ NoteUpdate.model_fields_set note_in → Note.body n' = Note.body n)
    ∧ (status_code out.1 = HTTP_200_OK →
       "title" ∈ NoteUpdate.model_fields_set note_in →
       payload_title_fits note_in →
       Note.title n' = NoteUpdate.title note_in)
    ∧ (status_code out.1 = HTTP_200_OK →
       "body" ∈ NoteUpdate.model_fields_set note_in →
       Note.body n' = NoteUpdate.body note_in)
    ∧ users out.2 = users db
    ∧ (∀ r, Note.id r ≠ note_id → r ∈ notes out.2 ↔ r ∈ notes db).
Proof.
  intros Hg out. subst out. unfold api_notes.update_note. rewrite Hg.
  destruct (crud_note.update_note db n note_in now) as [r db'] eqn:Hupd. simpl.
  pose proof (update_note_store db note_id (User.id u) n note_in now Hg) as Hst.
  rewrite Hupd in Hst. simpl in Hst.
  destruct Hst as (Hus & _ & _ & Hother & Hrow).
  destruct Hrow as [(Hget & Ht & Hb)|[(Hget & -> & _)|[(Hget & -> & _)
                   |(stored & Hf & Hget & Hch)]]].
  - rewrite apply_update_data_spec in Ht, Hb. simpl in Ht, Hb.
    exists n. split_and!; try done.
    + intros _ Hin _. by rewrite decide_True in Ht.
    + intros _ Hin. by rewrite decide_True in Hb.
  - exists n. split_and!; done.
  - exists n. split_and!; done.
  - apply flushed_Ok in Hf as (_ & Hbody & _ & Hsame & Hfits).
    rewrite apply_update_data_spec in Hbody, Hsame, Hfits.
    simpl in Hbody, Hsame, Hfits.
    eexists. split; [exact Hget|].
    rewrite update_row_id, update_row_user_id, update_row_created_at,
      update_row_title, update_row_body, Hbody.
    split_and!; try done.
    + intros Hnot. rewrite decide_False in Hsame by done.
      by rewrite Hsame.
    + intros Hnot. by rewrite decide_False.
    + intros _ Hin Hfit. rewrite decide_True in Hfits by done.
      apply Hfits. intros t Et. by apply Hfit.
    + intros _ Hin. by rewrite decide_True.
Qed.

Lemma partial_update_applies_only_present_fields_witness :
  ∃ n', crud_note.get_note
          (api_notes.update_note demo_db 1
             (NoteUpdate.mk (Some "Groceries") None {[ "title" ]}) alice 200).2 1 1
        = Some n'
    ∧ Note.body n' = Some "milk".
Proof.
  destruct (partial_update_applies_only_present_fields demo_db 1
              (NoteUpdate.mk (Some "Groceries") None {[ "title" ]}) alice 200
              shopping eq_refl)
    as (n' & Hget & _ & _ & _ & _ & Hbody & _).
  exists n'. split; [exact Hget|]. apply Hbody. vm_compute. discriminate.
Defined.

(** ** The updated timestamp *)

Lemma changes_note_spec (note_in : NoteUpdate) (n : Note) :
  let note' := crud_note.apply_update_data n (NoteUpdate.model_dump_exclude_unset note_in) in
  changes_note note_in n ↔ ¬ (Note.title note' = Note.title n ∧ Note.body note' = Note.body n).
Proof.
  intros note'. subst note'. rewrite apply_update_data_spec. simpl.
  unfold changes_note.
  destruct (decide ("title" ∈ NoteUpdate.model_fields_set note_in)) as [Ht|Ht],
    (decide ("body" ∈ NoteUpdate.model_fields_set note_in)) as [Hb|Hb],
    (decide (NoteUpdate.title note_in = Note.title n)) as [Et|Et],
    (decide (NoteUpdate.body note_in = Note.body n)) as [Eb|Eb];
    intuition congruence.
Qed.

(** C5 (as the specification states it) fails: served at clock reading 200,
    an update of the note [shopping] (last written at 100) whose payload
    sets no field is answered 200 and leaves the row, [updated_at]
    included, as it was. *)
Lemma empty_update_keeps_updated_at :
  let note_in := NoteUpdate.mk None None ∅ in
  let out := api_notes.update_note demo_db 1 note_in alice 200 in
  crud_note.get_note demo_db 1 (User.id alice) = Some shopping
  ∧ out = (JSONResponse 200 (NoteRead.mk 1 "Shopping" (Some "milk") 100 100), demo_db)
  ∧ ¬ (∀ n n', crud_note.get_note demo_db 1 (User.id alice) = Some n →
               crud_note.get_note out.2 1 (User.id alice) = Some n' →
               Note.updated_at n < Note.updated_at n').
Proof.
  split_and!; [reflexivity..|].
  intros Hclaim. specialize (Hclaim shopping shopping eq_refl eq_refl).
  simpl in Hclaim. lia.
Qed.

(** C5, amended.  For a note [n] that the caller can reach and an update
    served at a clock reading later than the note's [updated_at]: when the
    payload changes the title or the body, does not null the title and sets
    no title of more than 255 characters, the note's [updated_at]
    afterwards is that clock reading, strictly greater than before; when
    the payload changes neither (it sets no field, or repeats the stored
    values), [updated_at] is what it was. *)
Theorem updated_at_increases_on_change
    (db : Database) (note_id : Z) (note_in : NoteUpdate) (u : User) (now : datetime)
    (n : Note) :
  crud_note.get_note db note_id (User.id u) = Some n →
  Note.updated_at n < now →
  let out := api_notes.update_note db note_id note_in u now in
  ∃ n', crud_note.get_note out.2 note_id (User.id u) = Some n'
    ∧ (changes_note note_in n → keeps_title note_in → payload_title_fits note_in →
       Note.updated_at n' = now ∧ Note.updated_at n < Note.updated_at n')
    ∧ (¬ changes_note note_in n → Note.updated_at n' = Note.updated_at n).
Proof.
  intros Hg Hclock out. subst out. unfold api_notes.update_note. rewrite Hg.
  destruct (crud_note.update_note db n note_in now) as [r db'] eqn:Hupd. simpl.
  pose proof (update_note_store db note_id (User.id u) n note_in now Hg) as Hst.
  rewrite Hupd in Hst. simpl in Hst.
  destruct Hst as (_ & _ & _ & _ & Hrow).
  pose proof (changes_note_spec note_in n) as Hspec. simpl in Hspec.
  destruct Hrow as [(Hget & Ht & Hb)|[(Hget & _ & Hn & Hl)|[(Hget & _ & t & Ht & Hd & Hlong)
                   |(stored & Hf & Hget & Hch)]]].
  - exists n. split; [done|]. split; [|done].
    intros Hc _ _. exfalso. apply Hspec in Hc. by destruct Hc.
  - (* the flush was rejected: the payload nulls the title *)
    exists n. split; [done|]. split; [|done].
    intros _ Hk _. exfalso.
    rewrite apply_update_data_spec in Hn. simpl in Hn.
    case_decide as Hin; [by apply Hk|done].
  - (* the flush was rejected: the title does not fit the column *)
    exists n. split; [done|]. split; [|done].
    intros _ _ Hfit. exfalso.
    rewrite apply_update_data_spec in Ht, Hd. simpl in Ht, Hd.
    case_decide as Hin; [|done]. apply Hlong. by apply Hfit.
  - eexists. split; [exact Hget|]. rewrite update_row_updated_at.
    split; [intros _ _ _; split; [done|lia]|].
    intros Hno. exfalso. apply Hno. by apply Hspec.
Qed.

Lemma updated_at_increases_on_change_witness :
  ∃ n', crud_note.get_note
          (api_notes.update_note demo_db 1
             (NoteUpdate.mk (Some "Groceries") None {[ "title" ]}) alice 200).2 1 1
        = Some n'
    ∧ Note.updated_at shopping < Note.updated_at n'.
Proof.
  destruct (updated_at_increases_on_change demo_db 1
              (NoteUpdate.mk (Some "Groceries") None {[ "title" ]}) alice 200
              shopping eq_refl eq_refl)
    as (n' & Hget & Hinc & _).
  exists n'. split; [exact Hget|]. apply Hinc.
  - left. split; [vm_compute; reflexivity|discriminate].
  - intros _. discriminate.
  - intros t _ [= <-]. unfold title_fits, TITLE_WIDTH. simpl. lia.
Defined.

(** ** Explicit null in an update *)




(** What the commit then does with a nulled title: the flush is rejected,
    the handler answers 500 and the stored row is unchanged. *)
Lemma null_title_is_rejected_by_the_store
    (db : Database) (note_id : Z) (note_in : NoteUpdate) (u : User) (now : datetime)
    (n : Note) :
  crud_note.get_note db note_id (User.id u) = Some n →
  Note.title n ≠ None →
  "title" ∈ NoteUpdate.model_fields_set note_in →
  NoteUpdate.title note_in = None →
  api_notes.update_note db note_id note_in u now
  = (InternalServerError IntegrityError, db).
Proof.
  intros Hg Hn Hin Hnull. unfold api_notes.update_note. rewrite Hg.
  unfold crud_note.update_note, crud_note.commit_update.
  rewrite apply_update_data_spec. simpl.
  rewrite (decide_True _ _ Hin), Hnull.
  rewrite decide_False by (intros [? _]; congruence).
  unfold crud_note.flushed. simpl.
  rewrite decide_False by congruence. done.
Qed.

(** A title of 256 characters is rejected in the same way, with the
    engine's other error; one of 255 characters followed by a space is
    stored without the space. *)
Example over_long_title_update_is_rejected :
  api_notes.update_note demo_db 1
    (NoteUpdate.mk (Some title_256) None {[ "title" ]}) alice 200
  = (InternalServerError DataError, demo_db).
Proof. vm_compute. reflexivity. Qed.

Example trailing_space_update_is_truncated :
  ∃ content db',
    api_notes.update_note demo_db 1
      (NoteUpdate.mk (Some title_255_space) None {[ "title" ]}) alice 200
    = (JSONResponse HTTP_200_OK content, db')
    ∧ NoteRead.title content = string_take 255 title_255_space
    ∧ NoteRead.updated_at content = 200.
Proof. eexists _, _. split_and!; vm_compute; reflexivity. Qed.

(** ** Every handler invocation is at most one write *)

Section exec_write.
Context `{!Security}.

Lemma update_note_write db note_id note_in u now :
  let out := api_notes.update_note db note_id note_in u now in
  out.2 = db ∨ write db out.2.
Proof.
  simpl. unfold api_notes.update_note.
  destruct (crud_note.get_note db note_id (User.id u)) as [n|] eqn:Hg; [|by left].
  destruct (get_note_Some _ _ _ _ Hg) as (Hin & _ & _).
  unfold crud_note.update_note.
  destruct (commit_update_outcome db n
              (crud_note.apply_update_data n
                 (NoteUpdate.model_dump_exclude_unset note_in)) now)
    as [Ht Hb|Hn Hl|t e Ht Hd Hv|stored Hch Hf]; simpl; [by left..|].
  right. constructor; [done|]. by apply flushed_Ok in Hf as (_ & _ & Hnull & _).
Qed.

Lemma create_note_write db note_in u now :
  let out := api_notes.create_note db note_in u now in
  out.2 = db ∨ write db out.2.
Proof.
  simpl. unfold api_notes.create_note, crud_note.create_note.
  destruct (varchar TITLE_WIDTH (NoteCreate.title note_in)) as [title|e];
    [|by left].
  right. apply write_note.
Qed.

Lemma delete_note_write db note_id u :
  let out := api_notes.delete_note db note_id u in
  out.2 = db ∨ write db out.2.
Proof.
  simpl. unfold api_notes.delete_note.
  destruct (crud_note.get_note db note_id (User.id u)); simpl; [|by left].
  right. constructor.
Qed.

Lemma register_write db salt user_in now :
  let out := api_auth.register db salt user_in now in
  out.2 = db ∨ write db out.2.
Proof.
  simpl. unfold api_auth.register.
  destruct (crud_user.get_user_by_username db (UserCreate.username user_in)) eqn:Hg;
    [by left|].
  right.
  pose proof (write_user db salt user_in now Hg) as Hw.
  destruct (crud_user.create_user db salt user_in now) as [[user|e] db']; exact Hw.
Qed.

Lemma exec_write db now c : exec db now c = db ∨ write db (exec db now c).
Proof.
  destruct c; simpl; try by left.
  - apply register_write.
  - apply create_note_write.
  - apply update_note_write.
  - apply delete_note_write.
Qed.
End exec_write.

(** ** The invariants hold in every reachable store *)

Lemma NoDup_snoc_fresh {A B : Type} (f : A → B) (l : list A) (x : A) :
  NoDup (f <$> l) → (∀ y, y ∈ l → f y ≠ f x) → NoDup (f <$> (l ++ [x])).
Proof.
  intros Hnd Hfresh. rewrite fmap_app. apply NoDup_app. split_and!.
  - done.
  - intros b Hb Hx. apply list_elem_of_fmap in Hb as (y & -> & Hy).
    simpl in Hx. apply list_elem_of_singleton in Hx. by apply (Hfresh y).
  - simpl. apply NoDup_singleton.
Qed.

Lemma updated_rows_ids loaded note now rows :
  Note.id <$> crud_note.updated_rows loaded note now rows = Note.id <$> rows.
Proof.
  unfold crud_note.updated_rows. rewrite <- list_fmap_compose.
  apply list_fmap_ext. intros i r _. simpl.
  case_decide; [apply update_row_id|done].
Qed.

Lemma db_wf_empty : db_wf empty_db.
Proof.
  split; simpl; try apply NoDup_nil_2; intros ? Hin; by apply not_elem_of_nil in Hin.
Qed.

Ltac elem_of_concrete H :=
  repeat (apply elem_of_cons in H as [-> | H]; [simpl; eauto; lia|]);
  by apply not_elem_of_nil in H.

Ltac not_elem_of_concrete :=
  let H := fresh in
  intros H;
  repeat (apply elem_of_cons in H as [H | H]; [discriminate H|]);
  by apply not_elem_of_nil in H.

Ltac NoDup_concrete :=
  simpl; repeat (apply NoDup_cons_2; [not_elem_of_concrete|]); apply NoDup_nil_2.

Lemma demo_db_wf : db_wf demo_db.
Proof.
  split; try NoDup_concrete; intros r Hr; elem_of_concrete Hr.
Qed.

Section invariants.
Context `{!Security}.

Lemma write_wf db db' : db_wf db → write db db' → db_wf db'.
Proof.
  intros [Hns Hnpk Hnt Hus Hupk Hun] Hw.
  destruct Hw as [salt user_in now Hfree|title body user_id now
                 |loaded note now Hin Hnull|note].
  - (* INSERT into users *)
    unfold crud_user.get_user_by_username in Hfree.
    rewrite first_None in Hfree.
    split; simpl; try done.
    + intros u Hu. apply elem_of_app in Hu as [Hu|Hu].
      * specialize (Hus u Hu). lia.
      * apply list_elem_of_singleton in Hu as ->. simpl. lia.
    + apply NoDup_snoc_fresh; [done|]. intros y Hy. simpl.
      specialize (Hus y Hy). lia.
    + apply NoDup_snoc_fresh; [done|]. intros y Hy. simpl. by apply Hfree.
  - (* INSERT into notes *)
    split; simpl; try done.
    + intros r Hr. apply elem_of_app in Hr as [Hr|Hr].
      * specialize (Hns r Hr). lia.
      * apply list_elem_of_singleton in Hr as ->. simpl. lia.
    + apply NoDup_snoc_fresh; [done|]. intros y Hy. simpl.
      specialize (Hns y Hy). lia.
    + intros r Hr. apply elem_of_app in Hr as [Hr|Hr]; [by apply Hnt|].
      apply list_elem_of_singleton in Hr as ->. simpl. eauto.
  - (* UPDATE notes *)
    split; simpl; try done.
    + intros r Hr. apply list_elem_of_fmap in Hr as (y & -> & Hy).
      case_decide; [rewrite update_row_id|]; by apply Hns.
    + by rewrite updated_rows_ids.
    + intros r Hr. apply list_elem_of_fmap in Hr as (y & -> & Hy).
      case_decide; [|by apply Hnt].
      destruct (Hnt y Hy) as [ty Hty]. destruct (Hnt loaded Hin) as [tl Htl].
      unfold crud_note.update_row. repeat case_decide; simpl; try by eauto.
      * destruct (Note.title note) eqn:E; [eauto|]. specialize (Hnull eq_refl). congruence.
      * destruct (Note.title note) eqn:E; [eauto|]. specialize (Hnull eq_refl). congruence.
  - (* DELETE from notes *)
    split; simpl; try done.
    + intros r Hr. apply list_elem_of_filter in Hr as [_ Hr]. by apply Hns.
    + eapply sublist_NoDup; [exact Hnpk|apply fmap_sublist, sublist_filter].
    + intros r Hr. apply list_elem_of_filter in Hr as [_ Hr]. by apply Hnt.
Qed.

Lemma exec_wf db now c : db_wf db → db_wf (exec db now c).
Proof.
  intros Hwf. destruct (exec_write db now c) as [-> | Hw]; [done|].
  by eapply write_wf.
Qed.

Lemma run_wf calls db : db_wf db → db_wf (run calls db).
Proof.
  revert db. induction calls as [|[now c] calls IH]; intros db Hwf; [done|].
  simpl. apply IH. by apply exec_wf.
Qed.

(** Every store reached from the empty one by handler invocations
    satisfies the invariants. *)
Lemma reachable_wf calls : db_wf (run calls empty_db).
Proof. apply run_wf, db_wf_empty. Qed.
End invariants.

(** ** Ids and owners along a run *)

Lemma keys_from_refl db : keys_from db db.
Proof. split; [lia|]. intros r Hr. left. eauto. Qed.

Lemma keys_from_trans db1 db2 db3 :
  keys_from db1 db2 → keys_from db2 db3 → keys_from db1 db3.
Proof.
  intros [Hs12 Hk12] [Hs23 Hk23]. split; [lia|].
  intros r3 Hr3. destruct (Hk23 r3 Hr3) as [(r2 & Hr2 & Hi & Hu)|Hnew]; [|right; lia].
  destruct (Hk12 r2 Hr2) as [(r1 & Hr1 & Hi1 & Hu1)|Hnew].
  - left. exists r1. split_and!; [done|congruence..].
  - right. lia.
Qed.

Section keys.
Context `{!Security}.

Lemma write_keys db db' : write db db' → keys_from db db'.
Proof.
  intros [salt user_in now Hfree|title body user_id now
         |loaded note now Hin Hnull|note].
  - split; simpl; [lia|]. intros r Hr. left. eauto.
  - split; simpl; [lia|]. intros r Hr. apply elem_of_app in Hr as [Hr|Hr].
    + left. eauto.
    + apply list_elem_of_singleton in Hr as ->. right. simpl. lia.
  - split; simpl; [lia|]. intros r Hr. left.
    apply list_elem_of_fmap in Hr as (y & -> & Hy). exists y.
    case_decide; [|done]. by rewrite update_row_id, update_row_user_id.
  - split; simpl; [lia|]. intros r Hr. left.
    apply list_elem_of_filter in Hr as [_ Hr]. eauto.
Qed.

Lemma exec_keys db now c : keys_from db (exec db now c).
Proof.
  destruct (exec_write db now c) as [-> | Hw];
    [apply keys_from_refl|by apply write_keys].
Qed.

Lemma run_keys calls db : keys_from db (run calls db).
Proof.
  revert db. induction calls as [|[now c] calls IH]; intros db;
    [apply keys_from_refl|].
  simpl. eapply keys_from_trans; [apply exec_keys|apply IH].
Qed.

(** An id that has been handed out and is in no row stays in no row. *)
Lemma run_keeps_absent calls db note_id :
  note_id ≤ notes_id_seq db →
  (∀ r, r ∈ notes db → Note.id r ≠ note_id) →
  ∀ r, r ∈ notes (run calls db) → Note.id r ≠ note_id.
Proof.
  intros Hseq Habs r Hr Hid.
  destruct (run_keys calls db) as [_ Hk].
  destruct (Hk r Hr) as [(r0 & Hr0 & Hi & _)|Hnew]; [|lia].
  apply (Habs r0 Hr0). congruence.
Qed.

(** The owner of an id that has been handed out does not change. *)
Lemma run_keeps_owner calls db note_id owner :
  note_id ≤ notes_id_seq db →
  (∀ r, r ∈ notes db → Note.id r = note_id → Note.user_id r = owner) →
  ∀ r, r ∈ notes (run calls db) → Note.id r = note_id → Note.user_id r = owner.
Proof.
  intros Hseq Hown r Hr Hid.
  destruct (run_keys calls db) as [_ Hk].
  destruct (Hk r Hr) as [(r0 & Hr0 & Hi & Hu)|Hnew]; [|lia].
  rewrite <- Hu. apply (Hown r0 Hr0). congruence.
Qed.
End keys.

(** ** Not found *)

Lemma not_found_status {A} (note_id : Z) :
  status_code (@api_notes.not_found A note_id) = HTTP_404_NOT_FOUND.
Proof. reflexivity. Qed.

(** When the scoped query finds nothing, the three handlers answer the same
    404 and leave the store as it is. *)
Lemma unreachable_note_not_found db note_id caller :
  crud_note.get_note db note_id (User.id caller) = None →
  api_notes.read_note db note_id caller = api_notes.not_found note_id
  ∧ (∀ note_in now,
       api_notes.update_note db note_id note_in caller now
       = (api_notes.not_found note_id, db))
  ∧ api_notes.delete_note db note_id caller = (api_notes.not_found note_id, db).
Proof.
  intros Hg. unfold api_notes.read_note, api_notes.update_note, api_notes.delete_note.
  rewrite Hg. done.
Qed.

Lemma absent_note_unreachable db note_id user_id :
  (∀ r, r ∈ notes db → Note.id r ≠ note_id) →
  crud_note.get_note db note_id user_id = None.
Proof. intros Habs. apply get_note_None. intros r Hr Hid. by destruct (Habs r Hr). Qed.

Lemma foreign_note_unreachable db note_id owner user_id :
  (∀ r, r ∈ notes db → Note.id r = note_id → Note.user_id r = owner) →
  owner ≠ user_id →
  crud_note.get_note db note_id user_id = None.
Proof.
  intros Hown Hne. apply get_note_None. intros r Hr Hid Hu.
  specialize (Hown r Hr Hid). congruence.
Qed.

(** ** Creation *)

(** A title that the column rejects: creation answers 500 and the store is
    as it was. *)
Lemma create_note_rejected (db : Database) (note_in : NoteCreate) (u : User)
    (now : datetime) (e : exn) :
  varchar TITLE_WIDTH (NoteCreate.title note_in) = Raise e →
  api_notes.create_note db note_in u now = (InternalServerError e, db).
Proof.
  intros Hv. unfold api_notes.create_note, crud_note.create_note. by rewrite Hv.
Qed.

(** In a store that satisfies the invariants, creation with a title that
    fits the column answers 201 with the inserted row. *)
Lemma create_note_ok (db : Database) (note_in : NoteCreate) (u : User) (now : datetime) :
  db_wf db →
  title_fits (NoteCreate.title note_in) →
  api_notes.create_note db note_in u now
  = (JSONResponse HTTP_201_CREATED
       (NoteRead.mk (notes_id_seq db + 1) (NoteCreate.title note_in)
          (NoteCreate.body note_in) now now),
     with_notes
       (notes db ++ [Note.mk (notes_id_seq db + 1) (Some (NoteCreate.title note_in))
                       (NoteCreate.body note_in) (User.id u) now now])
       (notes_id_seq db + 1) db).
Proof.
  intros Hwf Hfit. unfold api_notes.create_note, crud_note.create_note.
  rewrite varchar_fits by exact Hfit. unfold refresh_note. simpl.
  rewrite (first_snoc_fresh (λ r, Note.id r = notes_id_seq db + 1)); [done| |done].
  intros y Hy. pose proof (wf_notes_seq db Hwf y Hy). lia.
Qed.

Lemma get_created_note (db : Database) (new : Note) :
  db_wf db → Note.id new = notes_id_seq db + 1 →
  crud_note.get_note (with_notes (notes db ++ [new]) (notes_id_seq db + 1) db)
    (Note.id new) (Note.user_id new) = Some new.
Proof.
  intros Hwf Hid. unfold crud_note.get_note. simpl.
  apply first_snoc_fresh; [|done].
  intros y Hy [Hy1 _]. pose proof (wf_notes_seq db Hwf y Hy). lia.
Qed.

(** C8 (as the specification states it) fails: a creation body whose title
    has 256 characters validates, but the INSERT is rejected by the column
    [String(255)]; creation answers 500, not 201, and no note is stored. *)
Lemma over_long_title_is_not_created :
  let d : gmap string value := {[ "title" := VStr title_256 ]} in
  String.length title_256 = 256%nat
  ∧ d !! "title" = Some (VStr title_256) ∧ d !! "body" = None
  ∧ NoteCreate.model_validate (VDict d) = Some (NoteCreate.mk title_256 None)
  ∧ api_notes.create_note demo_db (NoteCreate.mk title_256 None) alice 300
    = (InternalServerError DataError, demo_db)
  ∧ ¬ (∃ note_in created db',
         NoteCreate.model_validate (VDict d) = Some note_in
         ∧ api_notes.create_note demo_db note_in alice 300
           = (JSONResponse HTTP_201_CREATED created, db')).
Proof.
  assert (api_notes.create_note demo_db (NoteCreate.mk title_256 None) alice 300
          = (InternalServerError DataError, demo_db)) as Hc.
  { apply create_note_rejected. vm_compute. reflexivity. }
  split_and!; [vm_compute; reflexivity..|exact Hc|].
  intros (note_in & created & db' & Hv & Hcr).
  assert (note_in = NoteCreate.mk title_256 None) as ->.
  { vm_compute in Hv. injection Hv as <-. vm_compute. reflexivity. }
  rewrite Hc in Hcr. discriminate Hcr.
Qed.

(** A title of 255 characters followed by a space is stored without the
    space: creation answers 201, with a title that is not the one
    supplied. *)
Example trailing_space_is_truncated :
  ∃ created db',
    api_notes.create_note demo_db (NoteCreate.mk title_255_space None) alice 300
    = (JSONResponse HTTP_201_CREATED created, db')
    ∧ NoteRead.title created = string_take 255 title_255_space
    ∧ NoteRead.title created ≠ title_255_space.
Proof.
  eexists _, _. split_and!.
  - vm_compute. reflexivity.
  - vm_compute. reflexivity.
  - vm_compute. discriminate.
Qed.

(** C8, amended.  A created note round-trips.  For a creation body with a
    string [title] of at most 255 characters and a [body] that is a string,
    null or omitted, sent to a store that satisfies the invariants: the
    body validates, creation answers 201, and reading the returned id back
    as the same owner answers 200 with the title that was supplied and the
    body that was supplied, null when the body was omitted. *)
Theorem created_note_round_trips
    (db : Database) (d : gmap string value) (title : string) (u : User)
    (now : datetime) :
  db_wf db →
  title_fits title →
  d !! "title" = Some (VStr title) →
  (d !! "body" = None ∨ d !! "body" = Some VNone ∨ ∃ b, d !! "body" = Some (VStr b)) →
  ∃ note_in created db' read,
    NoteCreate.model_validate (VDict d) = Some note_in
    ∧ api_notes.create_note db note_in u now = (JSONResponse HTTP_201_CREATED created, db')
    ∧ api_notes.read_note db' (NoteRead.id created) u = JSONResponse HTTP_200_OK read
    ∧ NoteRead.id read = NoteRead.id created
    ∧ NoteRead.title read = title
    ∧ NoteRead.body read = match d !! "body" with Some (VStr b) => Some b | _ => None end
    ∧ (d !! "body" = None → NoteRead.body read = None).
Proof.
  intros Hwf Hfit Ht Hb.
  set (body := match d !! "body" with Some (VStr b) => Some b | _ => None end).
  assert (NoteCreate.model_validate (VDict d) = Some (NoteCreate.mk title body)) as Hv.
  { unfold NoteCreate.model_validate, body. rewrite Ht. simpl.
    destruct Hb as [-> | [-> | [b ->]]]; done. }
  eexists _, _, _, _. split; [exact Hv|].
  split; [by apply create_note_ok|].
  pose proof (get_created_note db
                (Note.mk (notes_id_seq db + 1) (Some title) body (User.id u) now now)
                Hwf eq_refl) as Hgot.
  unfold api_notes.read_note. simpl in *. rewrite Hgot.
  simpl. split_and!; try done.
  intros Hnone. unfold body. by rewrite Hnone.
Qed.

Lemma created_note_round_trips_witness :
  ∃ created db' read,
    api_notes.create_note demo_db (NoteCreate.mk "Shopping" None) alice 300
    = (JSONResponse HTTP_201_CREATED created, db')
    ∧ api_notes.read_note db' (NoteRead.id created) alice = JSONResponse HTTP_200_OK read
    ∧ NoteRead.title read = "Shopping" ∧ NoteRead.body read = None.
Proof.
  destruct (created_note_round_trips demo_db {[ "title" := VStr "Shopping" ]}
              "Shopping" alice 300 demo_db_wf)
    as (note_in & created & db' & read & Hv & Hc & Hr & _ & Ht & _ & Hb).
  - unfold title_fits, TITLE_WIDTH. simpl. lia.
  - vm_compute. reflexivity.
  - left. vm_compute. reflexivity.
  - vm_compute in Hv. injection Hv as <-.
    exists created, db', read. split_and!; [exact Hc|exact Hr|exact Ht|].
    apply Hb. vm_compute. reflexivity.
Defined.

(** ** Deletion *)

Lemma delete_note_removes db note :
  ∀ r, r ∈ notes (crud_note.delete_note db note) → Note.id r ≠ Note.id note.
Proof. intros r Hr. simpl in Hr. by apply list_elem_of_filter in Hr as [? _]. Qed.

Section deletion.
Context `{!Security}.

(** C7.  Idempotent visibility of delete.  Once the delete handler has
    answered 204 for a note id, then after any further handler
    invocations, by any callers, a get, an update and a delete of that id
    by any caller are answered 404 (with the same detail) and change
    nothing. *)
Theorem deleted_note_stays_not_found
    (db : Database) (note_id : Z) (u : User) (calls : list (datetime * Call))
    (caller : User) :
  db_wf db →
  (api_notes.delete_note db note_id u).1 = JSONResponse HTTP_204_NO_CONTENT () →
  let db' := run calls (api_notes.delete_note db note_id u).2 in
  api_notes.read_note db' note_id caller = api_notes.not_found note_id
  ∧ (∀ note_in now,
       api_notes.update_note db' note_id note_in caller now
       = (api_notes.not_found note_id, db'))
  ∧ api_notes.delete_note db' note_id caller = (api_notes.not_found note_id, db')
  ∧ status_code (api_notes.read_note db' note_id caller) = HTTP_404_NOT_FOUND.
Proof.
  intros Hwf Hdel db'.
  assert (crud_note.get_note db' note_id (User.id caller) = None) as Hgone.
  { subst db'. unfold api_notes.delete_note in *.
    destruct (crud_note.get_note db note_id (User.id u)) as [n|] eqn:Hg; [|done].
    destruct (get_note_Some _ _ _ _ Hg) as (Hin & Hid & _).
    apply absent_note_unreachable.
    apply (run_keeps_absent calls (crud_note.delete_note db n) note_id).
    - simpl. pose proof (wf_notes_seq db Hwf n Hin). lia.
    - intros r Hr. rewrite <- Hid. exact (delete_note_removes db n r Hr). }
  destruct (unreachable_note_not_found db' note_id caller Hgone) as (Hr & Hu & Hd).
  split_and!; [done..|]. by rewrite Hr.
Qed.
End deletion.

Lemma deleted_note_stays_not_found_witness :
  let db' := run (H := demo_security)
               [(400, CreateNote (NoteCreate.mk "Recipes" None) alice);
                (410, Register "s3" (UserCreate.mk "carol" "carolpw"))]
               (api_notes.delete_note demo_db 1 alice).2 in
  api_notes.read_note db' 1 alice = api_notes.not_found 1
  ∧ api_notes.delete_note db' 1 alice = (api_notes.not_found 1, db').
Proof.
  destruct (deleted_note_stays_not_found (H := demo_security) demo_db 1 alice
              [(400, CreateNote (NoteCreate.mk "Recipes" None) alice);
               (410, Register "s3" (UserCreate.mk "carol" "carolpw"))]
              alice demo_db_wf eq_refl)
    as (Hr & _ & Hd & _).
  split; [exact Hr|exact Hd].
Defined.

(** ** Listing *)

Lemma get_notes_owner db user_id skip limit l :
  crud_note.get_notes db user_id skip limit = Ok l →
  ∀ r, r ∈ l → r ∈ notes db ∧ Note.user_id r = user_id.
Proof.
  unfold crud_note.get_notes. case_decide; [done|]. intros [= <-] r Hr.
  apply subseteq_take, subseteq_drop in Hr.
  apply list_elem_of_filter in Hr as [? ?]. done.
Qed.

(** Every note of a listing is a row owned by the caller. *)
Lemma read_notes_rows db skip limit u l :
  api_notes.read_notes db skip limit u = JSONResponse HTTP_200_OK l →
  ∀ x, x ∈ l →
    ∃ r, r ∈ notes db ∧ Note.user_id r = User.id u ∧ Note.id r = NoteRead.id x
      ∧ NoteRead.model_validate r = Some x.
Proof.
  unfold api_notes.read_notes.
  destruct (crud_note.get_notes db (User.id u) skip limit) as [rows|e] eqn:Hrows; [|done].
  destruct (mapM NoteRead.model_validate rows) as [l'|] eqn:Hm; [|done].
  intros [= <-] x Hx.
  apply mapM_Some in Hm. apply list_elem_of_lookup in Hx as [i Hi].
  destruct (Forall2_lookup_r _ _ _ _ _ Hm Hi) as (r & Hr & Hv).
  apply list_elem_of_lookup_2 in Hr.
  destruct (get_notes_owner _ _ _ _ _ Hrows r Hr) as [Hin Hu].
  exists r. split_and!; try done.
  unfold NoteRead.model_validate in Hv.
  destruct (Note.title r); simpl in Hv; [|done]. by injection Hv as <-.
Qed.

(** ** Cross-tenant isolation *)

Section isolation.
Context `{!Security}.

(** C1.  Cross-tenant isolation.  User [a] creates a note, with a title
    that fits its column (at most 255 characters), in a store that
    satisfies the invariants; creation answers 201 with the note.  After
    any further handler invocations, for every user [b] other than [a]:
    no listing of [b] contains a note with that id; [b]'s get, update and
    delete of that id are answered 404 and change nothing; and each of
    these three responses equals the response [b] gets in any store that
    holds no note with that id at all. *)
Theorem cross_tenant_isolation
    (db : Database) (a b : User) (note_in : NoteCreate) (now : datetime)
    (calls : list (datetime * Call)) :
  db_wf db →
  title_fits (NoteCreate.title note_in) →
  User.id a ≠ User.id b →
  ∃ created,
    (api_notes.create_note db note_in a now).1 = JSONResponse HTTP_201_CREATED created
    ∧ let note_id := NoteRead.id created in
      let db' := run calls (api_notes.create_note db note_in a now).2 in
      (∀ skip limit l,
         api_notes.read_notes db' skip limit b = JSONResponse HTTP_200_OK l →
         ∀ x, x ∈ l → NoteRead.id x ≠ note_id)
      ∧ api_notes.read_note db' note_id b = api_notes.not_found note_id
      ∧ (∀ note_in' now',
           api_notes.update_note db' note_id note_in' b now'
           = (api_notes.not_found note_id, db'))
      ∧ api_notes.delete_note db' note_id b = (api_notes.not_found note_id, db')
      ∧ (∀ db0, (∀ r, r ∈ notes db0 → Note.id r ≠ note_id) →
           api_notes.read_note db0 note_id b = api_notes.read_note db' note_id b
           ∧ (∀ note_in' now',
                (api_notes.update_note db0 note_id note_in' b now').1
                = (api_notes.update_note db' note_id note_in' b now').1)
           ∧ (api_notes.delete_note db0 note_id b).1
             = (api_notes.delete_note db' note_id b).1).
Proof.
  intros Hwf Hfit Hab. rewrite (create_note_ok db note_in a now Hwf Hfit).
  eexists. split; [reflexivity|]. simpl.
  set (note_id := notes_id_seq db + 1).
  set (new := Note.mk note_id (Some (NoteCreate.title note_in))
                (NoteCreate.body note_in) (User.id a) now now).
  set (db1 := with_notes (notes db ++ [new]) note_id db).
  assert (∀ r, r ∈ notes (run calls db1) → Note.id r = note_id →
               Note.user_id r = User.id a) as Hown.
  { apply run_keeps_owner; [simpl; lia|].
    intros r Hr Hid. simpl in Hr. apply elem_of_app in Hr as [Hr|Hr].
    - pose proof (wf_notes_seq db Hwf r Hr). subst note_id. lia.
    - by apply list_elem_of_singleton in Hr as ->. }
  pose proof (foreign_note_unreachable _ _ _ (User.id b) Hown Hab) as Hgone.
  destruct (unreachable_note_not_found _ _ b Hgone) as (Hr & Hu & Hd).
  split_and!; try done.
  - intros skip limit l Hl x Hx Hid.
    destruct (read_notes_rows _ _ _ _ _ Hl x Hx) as (r & Hin & Hub & Hrid & _).
    apply Hab. rewrite <- Hub. symmetry. apply Hown; [done|congruence].
  - intros db0 Habs.
    pose proof (absent_note_unreachable db0 note_id (User.id b) Habs) as Hgone0.
    destruct (unreachable_note_not_found _ _ b Hgone0) as (Hr0 & Hu0 & Hd0).
    split_and!.
    + by rewrite Hr0, Hr.
    + intros note_in' now'. by rewrite Hu0, Hu.
    + by rewrite Hd0, Hd.
Qed.
End isolation.

Lemma cross_tenant_isolation_witness :
  let created := api_notes.create_note demo_db (NoteCreate.mk "Diary" (Some "private")) alice 300 in
  let db' := run (H := demo_security)
               [(310, UpdateNote 3 (NoteUpdate.mk (Some "Journal") None {[ "title" ]}) alice);
                (320, CreateNote (NoteCreate.mk "Plans" None) bob)]
               created.2 in
  status_code created.1 = HTTP_201_CREATED
  ∧ api_notes.read_note db' 3 bob = api_notes.not_found 3
  ∧ api_notes.delete_note db' 3 bob = (api_notes.not_found 3, db').
Proof.
  destruct (cross_tenant_isolation (H := demo_security) demo_db alice bob
              (NoteCreate.mk "Diary" (Some "private")) 300
              [(310, UpdateNote 3 (NoteUpdate.mk (Some "Journal") None {[ "title" ]}) alice);
               (320, CreateNote (NoteCreate.mk "Plans" None) bob)]
              demo_db_wf)
    as (created & Hc & _ & Hr & _ & Hd & _).
  - unfold title_fits, TITLE_WIDTH. simpl. lia.
  - simpl. lia.
  - vm_compute in Hc. injection Hc as <-.
    split_and!; [reflexivity|exact Hr|exact Hd].
Defined.

(** ** Registration *)

Section registration.
Context `{!Security}.

Lemma get_user_by_username_None db username :
  crud_user.get_user_by_username db username = None ↔
  ∀ u, u ∈ users db → User.username u ≠ username.
Proof. unfold crud_user.get_user_by_username. by rewrite first_None. Qed.

(** A registration under a free name inserts one user and answers 201. *)
Lemma register_free db salt user_in now :
  crud_user.get_user_by_username db (UserCreate.username user_in) = None →
  ∃ content,
    api_auth.register db salt user_in now
    = (JSONResponse HTTP_201_CREATED content,
       with_users (users db ++ [registered db salt user_in now]) (users_id_seq db + 1) db).
Proof.
  intros Hfree. unfold api_auth.register. rewrite Hfree.
  unfold crud_user.create_user, refresh_user. simpl.
  destruct (first_is_Some (λ r, User.id r = users_id_seq db + 1)
              (users db ++ [registered db salt user_in now])
              (registered db salt user_in now)) as [x Hx].
  { apply elem_of_app. right. left. }
  { done. }
  unfold registered in Hx. rewrite Hx. eauto.
Qed.

(** In a store that satisfies the invariants the content is the inserted
    user's public shape. *)
Lemma register_ok db salt user_in now :
  db_wf db →
  crud_user.get_user_by_username db (UserCreate.username user_in) = None →
  api_auth.register db salt user_in now
  = (JSONResponse HTTP_201_CREATED
       (UserRead.mk (users_id_seq db + 1) (UserCreate.username user_in) now),
     with_users (users db ++ [registered db salt user_in now]) (users_id_seq db + 1) db).
Proof.
  intros Hwf Hfree. unfold api_auth.register. rewrite Hfree.
  unfold crud_user.create_user, refresh_user. simpl.
  rewrite (first_snoc_fresh (λ r, User.id r = users_id_seq db + 1)); [done| |done].
  intros y Hy. pose proof (wf_users_seq db Hwf y Hy). lia.
Qed.

Lemma register_taken db salt user_in now existing :
  crud_user.get_user_by_username db (UserCreate.username user_in) = Some existing →
  api_auth.register db salt user_in now
  = (HTTPException HTTP_400_BAD_REQUEST "Username already registered" [], db).
Proof. intros Hg. unfold api_auth.register. by rewrite Hg. Qed.

(** After a registration under a free name, that name finds the inserted
    user and every other name finds what it found before. *)
Lemma get_user_after_register db salt user_in now username :
  crud_user.get_user_by_username db (UserCreate.username user_in) = None →
  crud_user.get_user_by_username
    (with_users (users db ++ [registered db salt user_in now]) (users_id_seq db + 1) db)
    username
  = if decide (username = UserCreate.username user_in)
    then Some (registered db salt user_in now)
    else crud_user.get_user_by_username db username.
Proof.
  intros Hfree. unfold crud_user.get_user_by_username in *. simpl.
  rewrite first_None in Hfree. case_decide as Hu.
  - subst username. by apply first_snoc_fresh.
  - apply first_snoc_other. simpl. congruence.
Qed.

(** C6.  Registering the same username twice.  The first registration,
    under a name that no user holds, answers 201 and inserts one user; the
    second, under the same name (whatever the password), answers 400 with
    a detail containing "already registered" and leaves the users table as
    the first left it.  The match is exact: after the first registration a
    name that differs in any character, and that no user held, registers
    with 201. *)
Theorem duplicate_username_is_rejected
    (db : Database) (username password1 password2 salt1 salt2 : string)
    (now1 now2 : datetime) :
  crud_user.get_user_by_username db username = None →
  let first := api_auth.register db salt1 (UserCreate.mk username password1) now1 in
  let second := api_auth.register first.2 salt2 (UserCreate.mk username password2) now2 in
  status_code first.1 = HTTP_201_CREATED
  ∧ length (users first.2) = S (length (users db))
  ∧ (∃ detail, second.1 = HTTPException HTTP_400_BAD_REQUEST detail []
               ∧ contains "already registered" detail = true)
  ∧ second.2 = first.2
  ∧ (∀ username', username' ≠ username →
       crud_user.get_user_by_username db username' = None →
       status_code
         (api_auth.register first.2 salt2 (UserCreate.mk username' password2) now2).1
       = HTTP_201_CREATED).
Proof.
  intros Hfree first second.
  destruct (register_free db salt1 (UserCreate.mk username password1) now1 Hfree)
    as [content Hfirst].
  subst second first. rewrite Hfirst. simpl.
  pose proof (get_user_after_register db salt1 (UserCreate.mk username password1) now1)
    as Hafter. simpl in Hafter.
  split_and!.
  - done.
  - rewrite length_app. simpl. lia.
  - erewrite register_taken;
      [|simpl; rewrite (Hafter username Hfree), decide_True by done; done].
    simpl. eauto.
  - erewrite register_taken;
      [|simpl; rewrite (Hafter username Hfree), decide_True by done; done].
    done.
  - intros username' Hne Hfree'.
    edestruct (register_free
                 (with_users
                    (users db ++ [registered db salt1 (UserCreate.mk username password1) now1])
                    (users_id_seq db + 1) db)
                 salt2 (UserCreate.mk username' password2) now2) as [content' Hsecond].
    { simpl. rewrite (Hafter username' Hfree), decide_False by done. done. }
    rewrite Hsecond. done.
Qed.
End registration.

Lemma duplicate_username_is_rejected_witness :
  let first := api_auth.register (H := demo_security) demo_db "s3"
                 (UserCreate.mk "carol" "carolpw") 400 in
  let second := api_auth.register (H := demo_security) first.2 "s4"
                  (UserCreate.mk "carol" "another") 410 in
  status_code first.1 = HTTP_201_CREATED
  ∧ status_code second.1 = HTTP_400_BAD_REQUEST
  ∧ second.2 = first.2.
Proof.
  destruct (duplicate_username_is_rejected (H := demo_security) demo_db
              "carol" "carolpw" "another" "s3" "s4" 400 410 eq_refl)
    as (H1 & _ & (detail & H2 & _) & H3 & _).
  split_and!; [exact H1|exact (f_equal status_code H2)|exact H3].
Defined.

(** The match is case-sensitive: with "carol" registered, "Carol" is free. *)
Example register_other_case :
  let first := api_auth.register (H := demo_security) demo_db "s3"
                 (UserCreate.mk "carol" "carolpw") 400 in
  status_code (api_auth.register (H := demo_security) first.2 "s4"
                 (UserCreate.mk "Carol" "carolpw") 410).1 = HTTP_201_CREATED.
Proof. reflexivity. Qed.

(** ** Login *)

Section login.
Context `{!Security}.

Lemma login_unknown_username db user_login now :
  crud_user.get_user_by_username db (UserLogin.username user_login) = None →
  api_auth.login db user_login now = incorrect_credentials.
Proof.
  intros Hg. unfold api_auth.login, crud_user.authenticate_user. by rewrite Hg.
Qed.

Lemma login_wrong_password db user_login now user :
  crud_user.get_user_by_username db (UserLogin.username user_login) = Some user →
  verify_password (UserLogin.password user_login) (User.hashed_password user) = false →
  api_auth.login db user_login now = incorrect_credentials.
Proof.
  intros Hg Hv. unfold api_auth.login, crud_user.authenticate_user.
  by rewrite Hg, Hv.
Qed.

(** C3.  Login.  With a Credential Store that accepts the password a
    digest was made from: after a registration under a free name, login
    with the registered name and password answers 200 with a bearer token
    for that name.  In any store, login under a name that no user holds
    and login under a held name with a password that the stored digest
    does not verify are both answered 401, and the two responses are
    equal: same status, same detail, same headers. *)
Theorem login_token_or_generic_401
    (db : Database) (salt : string) (user_in : UserCreate) (now now' : datetime) :
  verify_accepts_own_hash →
  crud_user.get_user_by_username db (UserCreate.username user_in) = None →
  api_auth.login (api_auth.register db salt user_in now).2
    (UserLogin.mk (UserCreate.username user_in) (UserCreate.password user_in)) now'
  = JSONResponse HTTP_200_OK
      (Token.mk
         (create_access_token (UserCreate.username user_in)
            ACCESS_TOKEN_EXPIRE_MINUTES now')
         "bearer")
  ∧ ∀ db1 db2 unknown wrong now1 now2 user,
      crud_user.get_user_by_username db1 (UserLogin.username unknown) = None →
      crud_user.get_user_by_username db2 (UserLogin.username wrong) = Some user →
      verify_password (UserLogin.password wrong) (User.hashed_password user) = false →
      status_code (api_auth.login db1 unknown now1) = HTTP_401_UNAUTHORIZED
      ∧ status_code (api_auth.login db2 wrong now2) = HTTP_401_UNAUTHORIZED
      ∧ api_auth.login db1 unknown now1 = api_auth.login db2 wrong now2.
Proof.
  intros Hlaw Hfree. split.
  - destruct (register_free db salt user_in now Hfree) as [content ->]. simpl.
    unfold api_auth.login, crud_user.authenticate_user. simpl.
    rewrite (get_user_after_register db salt user_in now _ Hfree).
    rewrite decide_True by done. simpl. by rewrite Hlaw.
  - intros db1 db2 unknown wrong now1 now2 user Hun Hheld Hwrong.
    rewrite (login_unknown_username _ _ _ Hun).
    rewrite (login_wrong_password _ _ _ _ Hheld Hwrong). done.
Qed.
End login.

Lemma strip_prefix_app (p s : string) : strip_prefix p (p +:+ s) = Some s.
Proof. induction p as [|a p IH]; [done|]. simpl. by rewrite decide_True. Qed.

Lemma demo_security_accepts_own_hash : verify_accepts_own_hash (H := demo_security).
Proof.
  intros salt password. simpl. apply bool_decide_eq_true.
  assert (password +:+ "$" +:+ salt = (password +:+ "$") +:+ salt) as ->.
  { induction password as [|a p IH]; [done|].
    change (String a (p +:+ "$" +:+ salt) = String a ((p +:+ "$") +:+ salt)).
    by rewrite IH. }
  rewrite strip_prefix_app. eauto.
Qed.

Lemma login_token_or_generic_401_witness :
  let db := (api_auth.register (H := demo_security) demo_db "s3"
               (UserCreate.mk "carol" "carolpw") 400).2 in
  status_code (api_auth.login (H := demo_security) db (UserLogin.mk "carol" "carolpw") 500)
  = HTTP_200_OK
  ∧ api_auth.login (H := demo_security) db (UserLogin.mk "dave" "carolpw") 500
    = api_auth.login (H := demo_security) db (UserLogin.mk "carol" "guess") 500.
Proof.
  destruct (login_token_or_generic_401 (H := demo_security) demo_db "s3"
              (UserCreate.mk "carol" "carolpw") 400 500
              demo_security_accepts_own_hash eq_refl)
    as [Hok Hfail].
  split.
  - exact (f_equal status_code Hok).
  - refine (proj2 (proj2 (Hfail _ _ (UserLogin.mk "dave" "carolpw")
                            (UserLogin.mk "carol" "guess") 500 500
                            (User.mk 3 "carol" "carolpw$s3" 400) _ _ _)));
      reflexivity.
Defined.

(** ** The registration response *)

Section public_shape.
Context `{!Security}.

Lemma register_created_free db salt user_in now :
  status_code (api_auth.register db salt user_in now).1 = HTTP_201_CREATED →
  crud_user.get_user_by_username db (UserCreate.username user_in) = None.
Proof.
  unfold api_auth.register.
  destruct (crud_user.get_user_by_username db (UserCreate.username user_in)); [|done].
  simpl. discriminate.
Qed.

(** C9.  The registration response.  In a store that satisfies the
    invariants, a registration answered 201 carries a content whose
    serialised dictionary has exactly the keys [id], [username] and
    [created_at], bound to the id taken from the sequence, the supplied
    username and the clock reading: no key and no value comes from the
    password or its digest.  A registration of the same username with any
    other password (and salt) gets the same response from the same store
    at the same clock reading, and from any other store a response with
    the same username. *)
Theorem registration_response_is_public
    (db : Database) (salt : string) (user_in : UserCreate) (now : datetime) :
  db_wf db →
  status_code (api_auth.register db salt user_in now).1 = HTTP_201_CREATED →
  ∃ content,
    (api_auth.register db salt user_in now).1 = JSONResponse HTTP_201_CREATED content
    ∧ dom (UserRead.model_dump content) = {[ "id"; "username"; "created_at" ]}
    ∧ UserRead.model_dump content
      = {[ "id" := VInt (users_id_seq db + 1);
           "username" := VStr (UserCreate.username user_in);
           "created_at" := VDatetime now ]}
    ∧ (∀ salt' password',
         (api_auth.register db salt'
            (UserCreate.mk (UserCreate.username user_in) password') now).1
         = (api_auth.register db salt user_in now).1)
    ∧ (∀ db2 salt2 password2 now2 content2,
         db_wf db2 →
         (api_auth.register db2 salt2
            (UserCreate.mk (UserCreate.username user_in) password2) now2).1
         = JSONResponse HTTP_201_CREATED content2 →
         UserRead.username content2 = UserRead.username content).
Proof.
  intros Hwf Hok. pose proof (register_created_free _ _ _ _ Hok) as Hfree.
  rewrite (register_ok db salt user_in now Hwf Hfree). simpl.
  eexists. split; [reflexivity|]. split_and!.
  - unfold UserRead.model_dump. rewrite !dom_insert_L, dom_singleton_L. set_solver.
  - done.
  - intros salt' password'.
    by rewrite (register_ok db salt' (UserCreate.mk _ password') now Hwf Hfree).
  - intros db2 salt2 password2 now2 content2 Hwf2 H2.
    assert (crud_user.get_user_by_username db2 (UserCreate.username user_in) = None)
      as Hfree2.
    { exact (register_created_free db2 salt2
               (UserCreate.mk (UserCreate.username user_in) password2) now2
               (f_equal status_code H2)). }
    rewrite (register_ok db2 salt2 (UserCreate.mk _ password2) now2 Hwf2 Hfree2) in H2.
    simpl in H2. by injection H2 as <-.
Qed.
End public_shape.

Lemma registration_response_is_public_witness :
  ∃ content,
    (api_auth.register (H := demo_security) demo_db "s3"
       (UserCreate.mk "carol" "carolpw") 400).1 = JSONResponse HTTP_201_CREATED content
    ∧ UserRead.model_dump content
      = {[ "id" := VInt 3; "username" := VStr "carol"; "created_at" := VDatetime 400 ]}.
Proof.
  destruct (registration_response_is_public (H := demo_security) demo_db "s3"
              (UserCreate.mk "carol" "carolpw") 400 demo_db_wf eq_refl)
    as (content & Hc & _ & Hd & _).
  exists content. split; [exact Hc|exact Hd].
Defined.

(** ** Unauthenticated requests *)


Section unauthenticated.
Context `{!Security}.

End unauthenticated.


(** With a valid token the same routes reach the handlers. *)
Example valid_token_reaches_handler :
  status_code
    (notes_route (H := demo_security) demo_db 1700000000 (Some "Bearer alice.1800000000")
       (GET_note 1)).1 = HTTP_200_OK.
Proof. reflexivity. Qed.

(** ** Updates that the store accepts *)

Lemma first_by_key {A B : Type} `{!EqDecision B} (f : A → B) (l : list A) (x : A) :
  NoDup (f <$> l) → x ∈ l → head (filter (λ y, f y = f x) l) = Some x.
Proof.
  induction l as [|y l IH]; intros Hnd Hx; [by apply not_elem_of_nil in Hx|].
  rewrite fmap_cons in Hnd. apply NoDup_cons in Hnd as [Hy Hnd].
  apply elem_of_cons in Hx as [-> | Hx].
  - by rewrite filter_cons_True.
  - rewrite filter_cons_False; [by apply IH|].
    intros Heq. apply Hy. rewrite Heq. by apply list_elem_of_fmap_2.
Qed.

(** A payload that neither nulls the title nor sets one that does not fit
    the column is stored as assigned. *)
Lemma flushed_payload (n : Note) (note_in : NoteUpdate) :
  is_Some (Note.title n) → keeps_title note_in → payload_title_fits note_in →
  let note' := crud_note.apply_update_data n (NoteUpdate.model_dump_exclude_unset note_in) in
  crud_note.flushed n note' = Ok note'.
Proof.
  intros [t Ht] Hkeep Hfit note'. subst note'.
  rewrite apply_update_data_spec. unfold crud_note.flushed. simpl.
  case_decide as Hd; [done|].
  case_decide as Hset; [|done].
  destruct (NoteUpdate.title note_in) as [t'|] eqn:E; [|by destruct (Hkeep Hset)].
  rewrite varchar_fits; [done|]. by apply (Hfit t').
Qed.

(** In a store that satisfies the invariants, an update of a reachable note
    whose payload neither nulls the title nor sets one of more than 255
    characters is answered 200 with the stored note. *)
Lemma update_note_ok
    (db : Database) (note_id : Z) (note_in : NoteUpdate) (u : User) (now : datetime)
    (n : Note) :
  db_wf db →
  crud_note.get_note db note_id (User.id u) = Some n →
  keeps_title note_in →
  payload_title_fits note_in →
  ∃ n' content,
    (api_notes.update_note db note_id note_in u now).1 = JSONResponse HTTP_200_OK content
    ∧ crud_note.get_note (api_notes.update_note db note_id note_in u now).2
        note_id (User.id u) = Some n'
    ∧ NoteRead.model_validate n' = Some content.
Proof.
  intros Hwf Hg Hkeep Hfit.
  destruct (get_note_Some _ _ _ _ Hg) as (Hin & Hid & Hu).
  destruct (wf_notes_title db Hwf n Hin) as [t Ht].
  unfold api_notes.update_note. rewrite Hg.
  unfold crud_note.update_note, crud_note.commit_update.
  rewrite (flushed_payload n note_in) by eauto.
  set (note' := crud_note.apply_update_data n
                  (NoteUpdate.model_dump_exclude_unset note_in)).
  assert (is_Some (Note.title note')) as [t' Ht'].
  { subst note'. rewrite apply_update_data_spec. simpl. case_decide as Hset; [|eauto].
    destruct (NoteUpdate.title note_in) eqn:E; [eauto|]. by destruct (Hkeep Hset). }
  destruct (decide (Note.title note' = Note.title n ∧ Note.body note' = Note.body n))
    as [[Hsame Hb]|Hch]; simpl.
  - unfold refresh_note.
    rewrite (first_by_key Note.id (notes db) n (wf_notes_pk db Hwf) Hin). simpl.
    unfold NoteRead.model_validate at 1. rewrite Ht. simpl.
    eexists n, _. split_and!; [done..|].
    unfold NoteRead.model_validate. by rewrite Ht.
  - unfold refresh_note. simpl. unfold crud_note.updated_rows.
    rewrite (first_fmap_stable (λ r, Note.id r = Note.id n));
      [|intros x; case_decide; [by rewrite update_row_id|done]].
    rewrite (first_by_key Note.id (notes db) n (wf_notes_pk db Hwf) Hin). simpl.
    rewrite decide_True by done.
    assert (NoteRead.model_validate (crud_note.update_row n note' now n)
            = Some (NoteRead.mk (Note.id n) t' (Note.body note')
                      (Note.created_at n) now)) as Hv.
    { unfold NoteRead.model_validate.
      rewrite update_row_title, update_row_body, update_row_id,
        update_row_created_at, update_row_updated_at, Ht'. done. }
    rewrite Hv. eexists _, _. split_and!; [done| |exact Hv].
    pose proof (get_note_updated_rows db n note' now note_id (User.id u)) as Hgu.
    rewrite Hg in Hgu. simpl in Hgu. rewrite decide_True in Hgu by done. exact Hgu.
Qed.

(** ** The scenario of the specification

    Register, log in, create a note with a title only, list, update the
    body, delete, read: served by [demo_security], whose token for "alice"
    issued at clock reading 0 is ["alice.1800000000"]. *)

Example scenario_register_login :
  let reg := api_auth.register (H := demo_security) empty_db "s1"
               (UserCreate.mk "alice" "secret1") 0 in
  status_code reg.1 = HTTP_201_CREATED
  ∧ api_auth.login (H := demo_security) reg.2 (UserLogin.mk "alice" "secret1") 0
    = JSONResponse HTTP_200_OK (Token.mk "alice.1800000000" "bearer").
Proof. split; vm_compute; reflexivity. Qed.

Example scenario_notes :
  let auth := Some "Bearer alice.1800000000" in
  let db0 := (api_auth.register (H := demo_security) empty_db "s1"
                (UserCreate.mk "alice" "secret1") 0).2 in
  let s1 := notes_route (H := demo_security) db0 10 auth
              (POST_notes (VDict {[ "title" := VStr "Shopping" ]})) in
  let s2 := notes_route (H := demo_security) s1.2 20 auth (GET_notes 0 100) in
  let s3 := notes_route (H := demo_security) s2.2 30 auth
              (PUT_note 1 (VDict {[ "body" := VStr "milk" ]})) in
  let s4 := notes_route (H := demo_security) s3.2 40 auth (DELETE_note 1) in
  let s5 := notes_route (H := demo_security) s4.2 50 auth (GET_note 1) in
  s1.1 = JSONResponse HTTP_201_CREATED (OneNote (NoteRead.mk 1 "Shopping" None 10 10))
  ∧ s2.1 = JSONResponse HTTP_200_OK (NoteList [NoteRead.mk 1 "Shopping" None 10 10])
  ∧ s3.1 = JSONResponse HTTP_200_OK (OneNote (NoteRead.mk 1 "Shopping" (Some "milk") 10 30))
  ∧ s4.1 = JSONResponse HTTP_204_NO_CONTENT NoContent
  ∧ status_code s5.1 = HTTP_404_NOT_FOUND.
Proof. split_and!; vm_compute; reflexivity. Qed.

(** * Further properties of the repository and the handlers *)

(** ** Pagination *)

Lemma get_notes_page db user_id skip limit :
  0 ≤ skip → 0 ≤ limit →
  crud_note.get_notes db user_id skip limit
  = Ok (take (Z.to_nat limit) (drop (Z.to_nat skip) (notes_of db user_id))).
Proof.
  intros Hs Hl. unfold crud_note.get_notes, notes_of.
  rewrite decide_False by lia. done.
Qed.

(** X1.  A listing is a bounded page of the owner's rows: for a
    non-negative offset and limit, [get_notes] returns at most [limit]
    notes, all owned by the user, in the order of the table and without
    repeating a row. *)
Theorem listing_is_a_bounded_page (db : Database) (user_id skip limit : Z) :
  0 ≤ skip → 0 ≤ limit →
  ∃ l, crud_note.get_notes db user_id skip limit = Ok l
    ∧ Z.of_nat (length l) ≤ limit
    ∧ l `sublist_of` notes db
    ∧ ∀ r, r ∈ l → Note.user_id r = user_id.
Proof.
  intros Hs Hl. rewrite get_notes_page by done. eexists. split; [done|].
  split_and!.
  - rewrite length_take. lia.
  - etrans; [apply sublist_take|]. etrans; [apply sublist_drop|].
    apply sublist_filter.
  - intros r Hr. apply subseteq_take, subseteq_drop in Hr.
    by apply list_elem_of_filter in Hr as [? _].
Qed.

Lemma listing_is_a_bounded_page_witness :
  ∃ l, crud_note.get_notes demo_db 1 0 1 = Ok l ∧ Z.of_nat (length l) ≤ 1.
Proof.
  destruct (listing_is_a_bounded_page demo_db 1 0 1) as (l & Hl & Hlen & _);
    [lia|lia|].
  exists l. split; [exact Hl|exact Hlen].
Defined.



(** X3.  A page past the end is empty, not an error: when the offset is at
    least the number of notes the caller owns (in particular when the caller
    owns none), the list handler answers 200 with the empty list. *)
Theorem listing_past_the_end_is_empty (db : Database) (skip limit : Z) (u : User) :
  0 ≤ limit →
  Z.of_nat (length (notes_of db (User.id u))) ≤ skip →
  api_notes.read_notes db skip limit u = JSONResponse HTTP_200_OK [].
Proof.
  intros Hl Hs. unfold api_notes.read_notes.
  rewrite get_notes_page by lia.
  rewrite drop_ge by lia. by rewrite take_nil.
Qed.

Lemma listing_past_the_end_is_empty_witness :
  api_notes.read_notes demo_db 1 100 alice = JSONResponse HTTP_200_OK [].
Proof.
  apply listing_past_the_end_is_empty; [lia|]. vm_compute. discriminate.
Defined.

Lemma validate_rows (rows : list Note) :
  (∀ r, r ∈ rows → is_Some (Note.title r)) →
  ∃ l, mapM NoteRead.model_validate rows = Some l ∧ listed rows l.
Proof.
  intros Ht.
  assert (∃ l, listed rows l) as [l Hl].
  { induction rows as [|r rows IH]; [exists []; constructor|].
    destruct IH as [l Hl]; [intros x Hx; apply Ht; by right|].
    destruct (Ht r) as [t Hr]; [by left|].
    eexists (_ :: l). constructor; [|exact Hl].
    unfold NoteRead.model_validate. rewrite Hr. done. }
  exists l. split; [by apply mapM_Some|done].
Qed.

(** X4.  In a store that satisfies the schema invariants the list handler
    never fails on a non-negative offset and limit: it answers 200 with the
    validation of the requested page of the caller's rows; with offset 0 and
    a limit of at least the number of the caller's notes, every note the
    caller owns is in the listing. *)
Theorem listing_answers_with_the_page (db : Database) (skip limit : Z) (u : User) :
  db_wf db → 0 ≤ skip → 0 ≤ limit →
  ∃ l, api_notes.read_notes db skip limit u = JSONResponse HTTP_200_OK l
    ∧ listed (take (Z.to_nat limit) (drop (Z.to_nat skip) (notes_of db (User.id u)))) l
    ∧ (skip = 0 → Z.of_nat (length (notes_of db (User.id u))) ≤ limit →
       ∀ r, r ∈ notes db → Note.user_id r = User.id u →
         ∃ x, x ∈ l ∧ NoteRead.model_validate r = Some x).
Proof.
  intros Hwf Hs Hl. unfold api_notes.read_notes. rewrite get_notes_page by done.
  destruct (validate_rows
              (take (Z.to_nat limit) (drop (Z.to_nat skip) (notes_of db (User.id u)))))
    as (l & Hm & Hlisted).
  { intros r Hr. apply subseteq_take, subseteq_drop in Hr.
    apply list_elem_of_filter in Hr as [_ Hr]. by apply (wf_notes_title db Hwf). }
  rewrite Hm. exists l. split_and!; [done..|].
  intros -> Hall r Hr Hu. simpl in Hlisted.
  rewrite drop_0, take_ge in Hlisted by lia.
  assert (r ∈ notes_of db (User.id u)) as Hin by (by apply list_elem_of_filter).
  apply list_elem_of_lookup in Hin as [i Hi].
  destruct (Forall2_lookup_l _ _ _ _ _ Hlisted Hi) as (x & Hx & Hv).
  exists x. split; [by eapply list_elem_of_lookup_2|done].
Qed.

Lemma listing_answers_with_the_page_witness :
  ∃ l, api_notes.read_notes demo_db 0 100 bob = JSONResponse HTTP_200_OK l
    ∧ ∃ x, x ∈ l ∧ NoteRead.model_validate ideas = Some x.
Proof.
  destruct (listing_answers_with_the_page demo_db 0 100 bob demo_db_wf)
    as (l & Hl & _ & Hall); [lia|lia|].
  exists l. split; [exact Hl|].
  apply Hall; [reflexivity|vm_compute; discriminate| |reflexivity].
  right. left.
Defined.

(** ** Lookup by id *)

Lemma first_unique {A B : Type} (f : A → B) (P : A → Prop) `{!∀ x, Decision (P x)}
    (l : list A) (x : A) :
  NoDup (f <$> l) → x ∈ l → P x → (∀ y, P y → f y = f x) →
  head (filter P l) = Some x.
Proof.
  induction l as [|y l IH]; intros Hnd Hx HP Hkey; [by apply not_elem_of_nil in Hx|].
  rewrite fmap_cons in Hnd. apply NoDup_cons in Hnd as [Hy Hnd].
  apply elem_of_cons in Hx as [-> | Hx].
  - by rewrite filter_cons_True.
  - rewrite filter_cons_False; [by apply IH|].
    intros HPy. apply Hy. rewrite (Hkey y HPy). by apply list_elem_of_fmap_2.
Qed.

Lemma get_note_of_row (db : Database) (r : Note) :
  db_wf db → r ∈ notes db →
  crud_note.get_note db (Note.id r) (Note.user_id r) = Some r.
Proof.
  intros Hwf Hr. unfold crud_note.get_note.
  apply (first_unique Note.id); [apply (wf_notes_pk db Hwf)|done|done|].
  by intros y [? _].
Qed.

(** X5.  Lookup is exact: in a store that satisfies the schema invariants,
    [get_note] finds a note for an id and a user exactly when the table
    holds a row with that id owned by that user, and then it finds that
    row; so an id whose row has another owner is found by the owner only. *)
Theorem get_note_finds_exactly_the_owned_row
    (db : Database) (note_id user_id : Z) (n : Note) :
  db_wf db →
  crud_note.get_note db note_id user_id = Some n
  ↔ n ∈ notes db ∧ Note.id n = note_id ∧ Note.user_id n = user_id.
Proof.
  intros Hwf. split; [apply get_note_Some|].
  intros (Hin & <- & <-). by apply get_note_of_row.
Qed.

Lemma get_note_finds_exactly_the_owned_row_witness :
  crud_note.get_note demo_db 2 2 = Some ideas.
Proof.
  apply (get_note_finds_exactly_the_owned_row demo_db 2 2 ideas demo_db_wf).
  split_and!; [|reflexivity|reflexivity]. right. left.
Defined.

(** X6.  Listing and reading agree: in a store that satisfies the schema
    invariants, every note of a listing answered to a caller is answered
    unchanged, with 200, when the caller reads it by its id. *)
Theorem listed_note_can_be_read
    (db : Database) (skip limit : Z) (u : User) (l : list NoteRead) (x : NoteRead) :
  db_wf db →
  api_notes.read_notes db skip limit u = JSONResponse HTTP_200_OK l →
  x ∈ l →
  api_notes.read_note db (NoteRead.id x) u = JSONResponse HTTP_200_OK x.
Proof.
  intros Hwf Hl Hx.
  destruct (read_notes_rows _ _ _ _ _ Hl x Hx) as (r & Hr & Hu & Hid & Hv).
  unfold api_notes.read_note.
  rewrite <- Hid, <- Hu, (get_note_of_row db r Hwf Hr). simpl. by rewrite Hv.
Qed.

Lemma listed_note_can_be_read_witness :
  api_notes.read_note demo_db 1 alice
  = JSONResponse HTTP_200_OK (NoteRead.mk 1 "Shopping" (Some "milk") 100 100).
Proof.
  apply (listed_note_can_be_read demo_db 0 100 alice
           [NoteRead.mk 1 "Shopping" (Some "milk") 100 100]
           (NoteRead.mk 1 "Shopping" (Some "milk") 100 100) demo_db_wf).
  - reflexivity.
  - left.
Defined.

(** ** Effects of creation and deletion on everything else *)

(** X7.  Creating a note for one user changes nothing for any other user:
    every listing page and every lookup of another user gives what it gave
    before, and the users table is untouched. *)
Theorem create_note_leaves_other_users_alone
    (db : Database) (note_in : NoteCreate) (u : User) (now : datetime) (other : Z) :
  other ≠ User.id u →
  let db' := (api_notes.create_note db note_in u now).2 in
  users db' = users db
  ∧ (∀ skip limit,
       crud_note.get_notes db' other skip limit = crud_note.get_notes db other skip limit)
  ∧ (∀ note_id, crud_note.get_note db' note_id other = crud_note.get_note db note_id other).
Proof.
  intros Hne db'. subst db'. unfold api_notes.create_note, crud_note.create_note.
  destruct (varchar TITLE_WIDTH (NoteCreate.title note_in)) as [title|e]; [|done].
  simpl. split_and!; [done| |].
  - intros skip limit. unfold crud_note.get_notes. simpl.
    rewrite filter_app, filter_cons_False, filter_nil, app_nil_r by (simpl; congruence).
    done.
  - intros note_id. unfold crud_note.get_note. simpl.
    apply first_snoc_other. simpl. intros [_ ?]. congruence.
Qed.

Lemma create_note_leaves_other_users_alone_witness :
  crud_note.get_notes
    (api_notes.create_note demo_db (NoteCreate.mk "Diary" None) alice 300).2 2 0 100
  = crud_note.get_notes demo_db 2 0 100.
Proof.
  destruct (create_note_leaves_other_users_alone demo_db (NoteCreate.mk "Diary" None)
              alice 300 2) as (_ & Hl & _).
  - simpl. lia.
  - apply Hl.
Defined.

(** X8.  A created note joins its owner's listing: in a store that
    satisfies the schema invariants, after the creation of a note whose
    title fits its column, answered with [c], the unpaginated listing of
    the owner (offset 0, limit above the number of notes) consists of the
    notes it listed before and [c], in some order. *)
Theorem created_note_joins_owner_listing
    (db : Database) (note_in : NoteCreate) (u : User) (now : datetime) (limit : Z)
    (l : list NoteRead) :
  db_wf db →
  title_fits (NoteCreate.title note_in) →
  Z.of_nat (length (notes_of db (User.id u))) < limit →
  api_notes.read_notes db 0 limit u = JSONResponse HTTP_200_OK l →
  ∃ c db' l',
    api_notes.create_note db note_in u now = (JSONResponse HTTP_201_CREATED c, db')
    ∧ api_notes.read_notes db' 0 limit u = JSONResponse HTTP_200_OK l'
    ∧ l' ≡ₚ c :: l.
Proof.
  intros Hwf Hfit Hlim Hl. rewrite (create_note_ok db note_in u now Hwf Hfit).
  eexists _, _, (l ++ [_]). split; [reflexivity|].
  split; [|symmetry; apply Permutation_cons_append].
  unfold api_notes.read_notes in *.
  rewrite get_notes_page in * by lia.
  unfold notes_of in *. simpl in *.
  rewrite filter_app, filter_cons_True, filter_nil by done.
  rewrite drop_0 in *. rewrite take_ge in Hl by lia.
  rewrite take_ge by (rewrite length_app; simpl; lia).
  destruct (mapM NoteRead.model_validate
              (filter (λ r, Note.user_id r = User.id u) (notes db))) as [l0|] eqn:Hm;
    [|done].
  injection Hl as <-. apply mapM_Some in Hm.
  erewrite (proj2 (mapM_Some _ _ _)); [done|].
  apply Forall2_app; [exact Hm|]. by constructor.
Qed.

Lemma created_note_joins_owner_listing_witness :
  ∃ c db' l',
    api_notes.create_note demo_db (NoteCreate.mk "Diary" None) alice 300
    = (JSONResponse HTTP_201_CREATED c, db')
    ∧ api_notes.read_notes db' 0 100 alice = JSONResponse HTTP_200_OK l'
    ∧ l' ≡ₚ c :: [NoteRead.mk 1 "Shopping" (Some "milk") 100 100].
Proof.
  apply (created_note_joins_owner_listing demo_db (NoteCreate.mk "Diary" None) alice
           300 100 [NoteRead.mk 1 "Shopping" (Some "milk") 100 100] demo_db_wf).
  - unfold title_fits, TITLE_WIDTH. simpl. lia.
  - vm_compute. reflexivity.
  - reflexivity.
Defined.

Lemma first_filter_ne {A : Type} (P Q : A → Prop)
    `{!∀ x, Decision (P x)} `{!∀ x, Decision (Q x)} (l : list A) :
  (∀ x, P x → Q x) → head (filter P (filter Q l)) = head (filter P l).
Proof.
  intros HPQ. induction l as [|x l IH]; [done|].
  destruct (decide (Q x)) as [HQ|HQ].
  - rewrite (filter_cons_True Q) by done. destruct (decide (P x)).
    + by rewrite !(filter_cons_True P) by done.
    + by rewrite !(filter_cons_False P) by done.
  - rewrite (filter_cons_False Q) by done.
    rewrite (filter_cons_False P); [done|]. intros HP. by apply HQ, HPQ.
Qed.

(** X9.  Deleting a note removes that id and nothing else: after the delete
    handler has answered 204, the users table and the sequence are as they
    were, no row carries the deleted id, and the lookup of every other id,
    for every user, gives what it gave before. *)
Theorem delete_note_removes_only_that_note (db : Database) (note_id : Z) (u : User) :
  (api_notes.delete_note db note_id u).1 = JSONResponse HTTP_204_NO_CONTENT () →
  let db' := (api_notes.delete_note db note_id u).2 in
  users db' = users db
  ∧ notes_id_seq db' = notes_id_seq db
  ∧ (∀ r, r ∈ notes db' → Note.id r ≠ note_id)
  ∧ (∀ other user_id, other ≠ note_id →
       crud_note.get_note db' other user_id = crud_note.get_note db other user_id).
Proof.
  unfold api_notes.delete_note.
  destruct (crud_note.get_note db note_id (User.id u)) as [n|] eqn:Hg; [|done].
  destruct (get_note_Some _ _ _ _ Hg) as (_ & Hid & _). intros _. simpl.
  split_and!; [done..| |].
  - intros r Hr. apply list_elem_of_filter in Hr as [Hr _]. congruence.
  - intros other user_id Hne. unfold crud_note.get_note. simpl.
    apply first_filter_ne. intros x [Hx _]. congruence.
Qed.

Lemma delete_note_removes_only_that_note_witness :
  crud_note.get_note (api_notes.delete_note demo_db 1 alice).2 2 2
  = crud_note.get_note demo_db 2 2.
Proof.
  destruct (delete_note_removes_only_that_note demo_db 1 alice eq_refl)
    as (_ & _ & _ & Hother).
  apply Hother. lia.
Defined.

Lemma length_filter_remove_key {A B : Type} `{!EqDecision B} (f : A → B)
    (l : list A) (x : A) :
  NoDup (f <$> l) → x ∈ l →
  (length (filter (λ y, f y ≠ f x) l) + 1 = length l)%nat.
Proof.
  induction l as [|y l IH]; intros Hnd Hx; [by apply not_elem_of_nil in Hx|].
  rewrite fmap_cons in Hnd. apply NoDup_cons in Hnd as [Hy Hnd].
  apply elem_of_cons in Hx as [-> | Hx].
  - rewrite filter_cons_False by (intros Hne; by apply Hne). simpl.
    assert (filter (λ z, f z ≠ f y) l = l) as ->; [|lia].
    clear IH Hnd. induction l as [|z l IH]; [done|].
    rewrite fmap_cons in Hy. apply not_elem_of_cons in Hy as [Hzy Hy].
    rewrite filter_cons_True by congruence. f_equal. by apply IH.
  - rewrite filter_cons_True.
    + simpl. rewrite IH by done. done.
    + intros Heq. apply Hy. rewrite Heq. by apply list_elem_of_fmap_2.
Qed.

Lemma filter_comm {A : Type} (P Q : A → Prop)
    `{!∀ x, Decision (P x)} `{!∀ x, Decision (Q x)} (l : list A) :
  filter P (filter Q l) = filter Q (filter P l).
Proof. rewrite !list_filter_filter. apply list_filter_iff. tauto. Qed.

Lemma filter_filter_in {A : Type} (P Q : A → Prop)
    `{!∀ x, Decision (P x)} `{!∀ x, Decision (Q x)} (l : list A) :
  (∀ x, x ∈ l → P x → Q x) → filter P (filter Q l) = filter P l.
Proof.
  intros HPQ. induction l as [|x l IH]; [done|].
  assert (filter P (filter Q l) = filter P l) as IH'.
  { apply IH. intros y Hy. apply HPQ. by right. }
  destruct (decide (P x)) as [HP|HP].
  - rewrite (filter_cons_True Q) by (apply HPQ; [left|done]).
    rewrite !(filter_cons_True P) by done. by rewrite IH'.
  - rewrite (filter_cons_False P x l) by done.
    destruct (decide (Q x)).
    + rewrite (filter_cons_True Q) by done. by rewrite (filter_cons_False P) by done.
    + by rewrite (filter_cons_False Q) by done.
Qed.

Lemma key_identifies_row {A B : Type} (f : A → B) (l : list A) (x y : A) :
  NoDup (f <$> l) → x ∈ l → y ∈ l → f x = f y → x = y.
Proof.
  induction l as [|z l IH]; intros Hnd Hx Hy Hf; [by apply not_elem_of_nil in Hx|].
  rewrite fmap_cons in Hnd. apply NoDup_cons in Hnd as [Hz Hnd].
  apply elem_of_cons in Hx as [-> | Hx], Hy as [-> | Hy].
  - done.
  - exfalso. apply Hz. rewrite Hf. by apply list_elem_of_fmap_2.
  - exfalso. apply Hz. rewrite <- Hf. by apply list_elem_of_fmap_2.
  - by apply IH.
Qed.

(** X10.  Deleting a note shortens the owner's collection by exactly one: in
    a store that satisfies the schema invariants, after the delete handler
    has answered 204 the caller owns one note less, and every other user
    owns the rows they owned. *)
Theorem delete_note_shortens_owner_list_by_one (db : Database) (note_id : Z) (u : User) :
  db_wf db →
  (api_notes.delete_note db note_id u).1 = JSONResponse HTTP_204_NO_CONTENT () →
  let db' := (api_notes.delete_note db note_id u).2 in
  (length (notes_of db' (User.id u)) + 1 = length (notes_of db (User.id u)))%nat
  ∧ ∀ other, other ≠ User.id u → notes_of db' other = notes_of db other.
Proof.
  intros Hwf. unfold api_notes.delete_note.
  destruct (crud_note.get_note db note_id (User.id u)) as [n|] eqn:Hg; [|done].
  destruct (get_note_Some _ _ _ _ Hg) as (Hin & Hid & Hu). intros _. simpl.
  unfold notes_of. simpl. split.
  - rewrite filter_comm. apply (length_filter_remove_key Note.id).
    + eapply sublist_NoDup; [apply (wf_notes_pk db Hwf)|].
      apply fmap_sublist, sublist_filter.
    + by apply list_elem_of_filter.
  - intros other Hne. apply filter_filter_in. intros x Hx Hux Hidx.
    apply Hne. rewrite <- Hux, <- Hu. f_equal.
    by apply (key_identifies_row Note.id (notes db) x n (wf_notes_pk db Hwf)).
Qed.

Lemma delete_note_shortens_owner_list_by_one_witness :
  (length (notes_of (api_notes.delete_note demo_db 1 alice).2 1) + 1
   = length (notes_of demo_db 1))%nat.
Proof.
  destruct (delete_note_shortens_owner_list_by_one demo_db 1 alice demo_db_wf eq_refl)
    as [Hlen _].
  exact Hlen.
Defined.

(** ** Updates: reading back, no-ops, repetition *)

Lemma update_then_read
    (db : Database) (note_id : Z) (note_in : NoteUpdate) (u : User) (now : datetime)
    (n : Note) :
  db_wf db →
  crud_note.get_note db note_id (User.id u) = Some n →
  keeps_title note_in →
  payload_title_fits note_in →
  ∃ n' content,
    (api_notes.update_note db note_id note_in u now).1 = JSONResponse HTTP_200_OK content
    ∧ crud_note.get_note (api_notes.update_note db note_id note_in u now).2
        note_id (User.id u) = Some n'
    ∧ api_notes.read_note (api_notes.update_note db note_id note_in u now).2 note_id u
      = JSONResponse HTTP_200_OK content.
Proof.
  intros Hwf Hg Hkeep Hfit.
  destruct (update_note_ok db note_id note_in u now n Hwf Hg Hkeep Hfit)
    as (n' & content & Hresp & Hget & Hv).
  exists n', content. split_and!; [done..|].
  unfold api_notes.read_note. rewrite Hget. simpl. by rewrite Hv.
Qed.

(** X11.  An update is read back: in a store that satisfies the schema
    invariants, when the payload neither nulls the title nor sets one of
    more than 255 characters, the update of a note the caller can reach is
    answered 200, and reading the same id afterwards answers 200 with the
    same content. *)
Theorem updated_note_is_read_back
    (db : Database) (note_id : Z) (note_in : NoteUpdate) (u : User) (now : datetime)
    (n : Note) :
  db_wf db →
  crud_note.get_note db note_id (User.id u) = Some n →
  keeps_title note_in →
  payload_title_fits note_in →
  ∃ content,
    (api_notes.update_note db note_id note_in u now).1 = JSONResponse HTTP_200_OK content
    ∧ api_notes.read_note (api_notes.update_note db note_id note_in u now).2 note_id u
      = JSONResponse HTTP_200_OK content.
Proof.
  intros Hwf Hg Hkeep Hfit.
  destruct (update_then_read db note_id note_in u now n Hwf Hg Hkeep Hfit)
    as (n' & content & Hresp & _ & Hread).
  by exists content.
Qed.

Lemma updated_note_is_read_back_witness :
  ∃ content,
    (api_notes.update_note demo_db 1 (NoteUpdate.mk None (Some "eggs") {[ "body" ]})
       alice 200).1 = JSONResponse HTTP_200_OK content
    ∧ api_notes.read_note
        (api_notes.update_note demo_db 1 (NoteUpdate.mk None (Some "eggs") {[ "body" ]})
           alice 200).2 1 alice
      = JSONResponse HTTP_200_OK content.
Proof.
  apply (updated_note_is_read_back demo_db 1
           (NoteUpdate.mk None (Some "eggs") {[ "body" ]}) alice 200 shopping
           demo_db_wf eq_refl).
  - intros Hin. vm_compute in Hin. discriminate Hin.
  - intros t Hin. vm_compute in Hin. discriminate Hin.
Defined.

Lemma unchanged_update_writes_nothing
    (db : Database) (note_id : Z) (note_in : NoteUpdate) (u : User) (now : datetime)
    (n : Note) :
  crud_note.get_note db note_id (User.id u) = Some n →
  ¬ changes_note note_in n →
  api_notes.update_note db note_id note_in u now
  = (api_notes.respond_note HTTP_200_OK (refresh_note db (Note.id n)), db).
Proof.
  intros Hg Hno. unfold api_notes.update_note. rewrite Hg.
  unfold crud_note.update_note, crud_note.commit_update.
  pose proof (changes_note_spec note_in n) as Hspec. simpl in Hspec.
  rewrite decide_True; [done|].
  destruct (decide (Note.title
                      (crud_note.apply_update_data n
                         (NoteUpdate.model_dump_exclude_unset note_in)) = Note.title n
                    ∧ Note.body
                        (crud_note.apply_update_data n
                           (NoteUpdate.model_dump_exclude_unset note_in)) = Note.body n))
    as [Hsame|Hdiff]; [done|].
  exfalso. apply Hno. by apply Hspec.
Qed.

Lemma unchanged_update_response
    (db : Database) (note_id : Z) (note_in : NoteUpdate) (u : User) (now : datetime)
    (n : Note) :
  db_wf db →
  crud_note.get_note db note_id (User.id u) = Some n →
  ¬ changes_note note_in n →
  api_notes.update_note db note_id note_in u now = (api_notes.read_note db note_id u, db)
  ∧ status_code (api_notes.read_note db note_id u) = HTTP_200_OK.
Proof.
  intros Hwf Hg Hno.
  rewrite (unchanged_update_writes_nothing db note_id note_in u now n Hg Hno).
  destruct (get_note_Some _ _ _ _ Hg) as (Hin & Hid & Hu).
  unfold refresh_note.
  rewrite (first_by_key Note.id (notes db) n (wf_notes_pk db Hwf) Hin).
  unfold api_notes.read_note. rewrite Hg. split; [done|].
  destruct (wf_notes_title db Hwf n Hin) as [t Ht].
  unfold api_notes.respond_note, NoteRead.model_validate. rewrite Ht. done.
Qed.

(** X12.  An update that changes nothing writes nothing: when every field
    that the payload sets already holds the payload's value (in particular
    when the payload sets no field), the store after the update handler is
    the store before it, whatever the clock reads; in a store that satisfies
    the schema invariants the handler answers 200 with the note as it is. *)
Theorem unchanged_update_is_a_no_op
    (db : Database) (note_id : Z) (note_in : NoteUpdate) (u : User) (now : datetime)
    (n : Note) :
  crud_note.get_note db note_id (User.id u) = Some n →
  ¬ changes_note note_in n →
  (api_notes.update_note db note_id note_in u now).2 = db
  ∧ (db_wf db →
     (api_notes.update_note db note_id note_in u now).1
     = api_notes.read_note db note_id u
     ∧ status_code (api_notes.update_note db note_id note_in u now).1 = HTTP_200_OK).
Proof.
  intros Hg Hno. split.
  - by rewrite (unchanged_update_writes_nothing db note_id note_in u now n Hg Hno).
  - intros Hwf.
    destruct (unchanged_update_response db note_id note_in u now n Hwf Hg Hno)
      as [-> Hs]. done.
Qed.

Lemma unchanged_update_is_a_no_op_witness :
  (api_notes.update_note demo_db 1 (NoteUpdate.mk (Some "Shopping") None {[ "title" ]})
     alice 999).2 = demo_db.
Proof.
  destruct (unchanged_update_is_a_no_op demo_db 1
              (NoteUpdate.mk (Some "Shopping") None {[ "title" ]}) alice 999 shopping
              eq_refl) as [Hdb _].
  - intros [[_ Hne] | [Hin _]].
    + by apply Hne.
    + vm_compute in Hin. discriminate Hin.
  - exact Hdb.
Defined.

(** The state of a note after an accepted update no longer differs from the
    payload. *)
Lemma updated_note_matches_payload
    (db : Database) (note_id : Z) (note_in : NoteUpdate) (u : User) (now : datetime)
    (n n' : Note) :
  crud_note.get_note db note_id (User.id u) = Some n →
  keeps_title note_in → payload_title_fits note_in → Note.title n ≠ None →
  crud_note.get_note (api_notes.update_note db note_id note_in u now).2 note_id (User.id u)
  = Some n' →
  ¬ changes_note note_in n'.
Proof.
  intros Hg Hkeep Hfit Hnn Hg'. unfold api_notes.update_note in Hg'. rewrite Hg in Hg'.
  destruct (crud_note.update_note db n note_in now) as [r db'] eqn:Hupd. simpl in Hg'.
  pose proof (update_note_store db note_id (User.id u) n note_in now Hg) as Hst.
  rewrite Hupd in Hst. simpl in Hst. destruct Hst as (_ & _ & _ & _ & Hrow).
  pose proof (changes_note_spec note_in n) as Hspec. simpl in Hspec.
  destruct Hrow as [(Hget & Ht & Hb)|[(Hget & _ & Hn & Hl)|[(Hget & _ & t & Ht & Hd & Hlong)
                   |(stored & Hf & Hget & Hch)]]].
  - rewrite Hget in Hg'. injection Hg' as <-. rewrite Hspec. tauto.
  - (* the flush is rejected only for a nulled title *)
    exfalso. rewrite apply_update_data_spec in Hn. simpl in Hn.
    case_decide as Hset; [by apply Hkeep|done].
  - (* or for a title that does not fit *)
    exfalso. rewrite apply_update_data_spec in Ht, Hd. simpl in Ht, Hd.
    case_decide as Hset; [|done]. apply Hlong. by apply Hfit.
  - rewrite Hget in Hg'. injection Hg' as <-.
    rewrite (flushed_payload n note_in) in Hf;
      [|by destruct (Note.title n); eauto|done..].
    injection Hf as <-.
    unfold changes_note. rewrite update_row_title, update_row_body.
    rewrite apply_update_data_spec. simpl.
    intros [[Hset Hne] | [Hset Hne]]; rewrite decide_True in Hne by done; done.
Qed.

Lemma update_note_keeps_wf
    (db : Database) (note_id : Z) (note_in : NoteUpdate) (u : User) (now : datetime) :
  db_wf db → db_wf (api_notes.update_note db note_id note_in u now).2.
Proof.
  intros Hwf.
  pose (S := Build_Security (λ _ p, p) (λ _ _, true) (λ _ _ _, EmptyString) (λ _, None)).
  destruct (update_note_write (H := S) db note_id note_in u now) as [-> | Hw]; [done|].
  by apply (write_wf (H := S) db).
Qed.

(** X13.  Repeating an update changes nothing more: in a store that
    satisfies the schema invariants, after an update whose payload neither
    nulls the title nor sets one of more than 255 characters, sending the
    same payload again (at any later clock reading) leaves the store as the
    first update left it and is answered with the same content,
    [updated_at] included. *)
Theorem repeated_update_is_idempotent
    (db : Database) (note_id : Z) (note_in : NoteUpdate) (u : User)
    (now1 now2 : datetime) (n : Note) :
  db_wf db →
  crud_note.get_note db note_id (User.id u) = Some n →
  keeps_title note_in →
  payload_title_fits note_in →
  let first := api_notes.update_note db note_id note_in u now1 in
  let second := api_notes.update_note first.2 note_id note_in u now2 in
  status_code first.1 = HTTP_200_OK ∧ second.2 = first.2 ∧ second.1 = first.1.
Proof.
  intros Hwf Hg Hkeep Hfit first second. subst second first.
  destruct (update_then_read db note_id note_in u now1 n Hwf Hg Hkeep Hfit)
    as (n' & content & Hresp & Hget & Hread).
  destruct (get_note_Some _ _ _ _ Hg) as (Hin & _ & _).
  assert (Note.title n ≠ None) as Hnn.
  { destruct (wf_notes_title db Hwf n Hin) as [t Ht]. congruence. }
  pose proof (updated_note_matches_payload db note_id note_in u now1 n n'
                Hg Hkeep Hfit Hnn Hget) as Hno.
  pose proof (update_note_keeps_wf db note_id note_in u now1 Hwf) as Hwf1.
  destruct (unchanged_update_response _ note_id note_in u now2 n' Hwf1 Hget Hno)
    as [-> _].
  rewrite Hresp. simpl. split_and!; [done|done|]. by rewrite Hread.
Qed.

Lemma repeated_update_is_idempotent_witness :
  let first := api_notes.update_note demo_db 1
                 (NoteUpdate.mk None (Some "eggs") {[ "body" ]}) alice 200 in
  let second := api_notes.update_note first.2 1
                  (NoteUpdate.mk None (Some "eggs") {[ "body" ]}) alice 900 in
  second = first.
Proof.
  destruct (repeated_update_is_idempotent demo_db 1
              (NoteUpdate.mk None (Some "eggs") {[ "body" ]}) alice 200 900 shopping
              demo_db_wf eq_refl) as (_ & Hdb & Hr).
  - intros Hin. vm_compute in Hin. discriminate Hin.
  - intros t Hin. vm_compute in Hin. discriminate Hin.
  - simpl. apply injective_projections; [exact Hr|exact Hdb].
Defined.

(** ** Reachable stores *)

Section reachable.
Context `{!Security}.

(** X14.  Names and ids identify rows: in every store reached from the
    empty one by handler invocations, two users with the same username are
    the same row (the check in [register] keeps the unique constraint), two
    users with the same id are the same row, and two notes with the same id
    are the same row. *)
Theorem reachable_keys_identify_rows (calls : list (datetime * Call)) :
  let db := run calls empty_db in
  (∀ u1 u2, u1 ∈ users db → u2 ∈ users db →
            User.username u1 = User.username u2 → u1 = u2)
  ∧ (∀ u1 u2, u1 ∈ users db → u2 ∈ users db → User.id u1 = User.id u2 → u1 = u2)
  ∧ (∀ n1 n2, n1 ∈ notes db → n2 ∈ notes db → Note.id n1 = Note.id n2 → n1 = n2).
Proof.
  intros db. destruct (reachable_wf calls) as [_ Hnpk _ _ Hupk Hun].
  split_and!; intros x y; by apply key_identifies_row.
Qed.

(** X15.  Reading never fails in a reachable store: whatever handler
    invocations led to it, the get handler answers 200 or 404, and the list
    handler answers 200 for every non-negative offset and limit. *)
Theorem reachable_reads_never_fail
    (calls : list (datetime * Call)) (note_id skip limit : Z) (u : User) :
  let db := run calls empty_db in
  (status_code (api_notes.read_note db note_id u) = HTTP_200_OK
   ∨ status_code (api_notes.read_note db note_id u) = HTTP_404_NOT_FOUND)
  ∧ (0 ≤ skip → 0 ≤ limit →
     status_code (api_notes.read_notes db skip limit u) = HTTP_200_OK).
Proof.
  intros db. pose proof (reachable_wf calls) as Hwf. fold db in Hwf. split.
  - unfold api_notes.read_note.
    destruct (crud_note.get_note db note_id (User.id u)) as [n|] eqn:Hg; [|by right].
    left. destruct (get_note_Some _ _ _ _ Hg) as (Hin & _ & _).
    destruct (wf_notes_title db Hwf n Hin) as [t Ht].
    unfold api_notes.respond_note, NoteRead.model_validate. by rewrite Ht.
  - intros Hs Hl. unfold api_notes.read_notes. rewrite get_notes_page by done.
    destruct (validate_rows
                (take (Z.to_nat limit) (drop (Z.to_nat skip) (notes_of db (User.id u)))))
      as (l & Hm & _).
    { intros r Hr. apply subseteq_take, subseteq_drop in Hr.
      apply list_elem_of_filter in Hr as [_ Hr]. by apply (wf_notes_title db Hwf). }
    by rewrite Hm.
Qed.

(** X16.  Note ids grow: in a store that satisfies the schema invariants, a
    creation (with a title that fits its column) is answered with an id
    above every id in the table, and such a creation after any further
    handler invocations is answered with an id above that one; no two
    creations are ever answered with the same id. *)
Theorem created_ids_increase
    (db : Database) (note_in1 note_in2 : NoteCreate) (u1 u2 : User)
    (now1 now2 : datetime) (calls : list (datetime * Call)) :
  db_wf db →
  title_fits (NoteCreate.title note_in1) →
  title_fits (NoteCreate.title note_in2) →
  let first := api_notes.create_note db note_in1 u1 now1 in
  let second := api_notes.create_note (run calls first.2) note_in2 u2 now2 in
  ∃ c1 c2,
    first.1 = JSONResponse HTTP_201_CREATED c1
    ∧ second.1 = JSONResponse HTTP_201_CREATED c2
    ∧ (∀ r, r ∈ notes db → Note.id r < NoteRead.id c1)
    ∧ NoteRead.id c1 < NoteRead.id c2.
Proof.
  intros Hwf Hfit1 Hfit2 first second. subst second first.
  rewrite (create_note_ok db note_in1 u1 now1 Hwf Hfit1). cbn [fst snd].
  set (db1 := with_notes _ _ db).
  assert (db_wf db1) as Hwf1.
  { apply (write_wf db); [done|]. apply write_note. }
  pose proof (run_wf calls db1 Hwf1) as Hwf2.
  rewrite (create_note_ok (run calls db1) note_in2 u2 now2 Hwf2 Hfit2). cbn [fst snd].
  eexists _, _. split_and!; [done..| |].
  - intros r Hr. pose proof (wf_notes_seq db Hwf r Hr). simpl. lia.
  - destruct (run_keys calls db1) as [Hseq _]. simpl in *. lia.
Qed.
End reachable.

Lemma reachable_reads_never_fail_witness :
  status_code
    (api_notes.read_notes
       (run (H := demo_security)
          [(0, Register "s1" (UserCreate.mk "alice" "secret1"));
           (5, CreateNote (NoteCreate.mk "Shopping" None) alice)] empty_db)
       0 100 alice) = HTTP_200_OK.
Proof.
  apply (reachable_reads_never_fail (H := demo_security)
           [(0, Register "s1" (UserCreate.mk "alice" "secret1"));
            (5, CreateNote (NoteCreate.mk "Shopping" None) alice)] 0 0 100 alice); lia.
Defined.

Lemma created_ids_increase_witness :
  ∃ c1 c2,
    (api_notes.create_note demo_db (NoteCreate.mk "A" None) alice 300).1
    = JSONResponse HTTP_201_CREATED c1
    ∧ (api_notes.create_note
         (run (H := demo_security) [(310, DeleteNote 3 alice)]
            (api_notes.create_note demo_db (NoteCreate.mk "A" None) alice 300).2)
         (NoteCreate.mk "B" None) bob 320).1
      = JSONResponse HTTP_201_CREATED c2
    ∧ NoteRead.id c1 < NoteRead.id c2.
Proof.
  destruct (created_ids_increase (H := demo_security) demo_db
              (NoteCreate.mk "A" None) (NoteCreate.mk "B" None) alice bob 300 320
              [(310, DeleteNote 3 alice)] demo_db_wf)
    as (c1 & c2 & H1 & H2 & _ & Hlt).
  - unfold title_fits, TITLE_WIDTH. simpl. lia.
  - unfold title_fits, TITLE_WIDTH. simpl. lia.
  - exists c1, c2. split_and!; [exact H1|exact H2|exact Hlt].
Defined.

(** ** Users and credentials *)

Section credentials.
Context `{!Security}.

(** X17.  Registration leaves existing accounts and all notes alone: after
    the register handler (whether it answered 201 or 400) the notes table
    and its sequence are as before, every user row that was there is still
    there, and for every username that was already registered
    [authenticate_user] answers, for every password, what it answered
    before. *)
Theorem register_leaves_existing_accounts_alone
    (db : Database) (salt : string) (user_in : UserCreate) (now : datetime) :
  let db' := (api_auth.register db salt user_in now).2 in
  notes db' = notes db
  ∧ notes_id_seq db' = notes_id_seq db
  ∧ (∀ u, u ∈ users db → u ∈ users db')
  ∧ (∀ username password,
       is_Some (crud_user.get_user_by_username db username) →
       crud_user.authenticate_user db' username password
       = crud_user.authenticate_user db username password).
Proof.
  intros db'. subst db'.
  destruct (crud_user.get_user_by_username db (UserCreate.username user_in))
    as [existing|] eqn:Hg.
  - rewrite (register_taken db salt user_in now existing Hg). done.
  - destruct (register_free db salt user_in now Hg) as [content ->]. simpl.
    split_and!; [done..| |].
    + intros u Hu. apply elem_of_app. by left.
    + intros username password [x Hx]. unfold crud_user.authenticate_user.
      rewrite (get_user_after_register db salt user_in now username Hg).
      rewrite decide_False; [done|]. intros ->. congruence.
Qed.

(** X18.  What was registered is what authenticates: after a registration
    under a free name, [authenticate_user] under that name returns the
    inserted user exactly for the passwords that [verify_password] accepts
    against the digest made at registration, and nothing for any other
    password. *)
Theorem registered_credentials_authenticate
    (db : Database) (salt : string) (user_in : UserCreate) (now : datetime)
    (password : string) :
  crud_user.get_user_by_username db (UserCreate.username user_in) = None →
  crud_user.authenticate_user (api_auth.register db salt user_in now).2
    (UserCreate.username user_in) password
  = if verify_password password (get_password_hash salt (UserCreate.password user_in))
    then Some (registered db salt user_in now)
    else None.
Proof.
  intros Hfree. destruct (register_free db salt user_in now Hfree) as [content ->].
  simpl. unfold crud_user.authenticate_user.
  rewrite (get_user_after_register db salt user_in now _ Hfree).
  by rewrite decide_True.
Qed.

(** X19.  A token is issued only for verified credentials: when the login
    handler answers with a token, the users table holds a user with the
    submitted username whose stored digest [verify_password] accepts for
    the submitted password; the status is 200, the token is the one made
    for that username with the configured lifetime at the clock reading of
    the request, and its type is "bearer". *)
Theorem login_token_only_for_verified_credentials
    (db : Database) (user_login : UserLogin) (now : datetime) (status : Z) (t : Token) :
  api_auth.login db user_login now = JSONResponse status t →
  status = HTTP_200_OK
  ∧ t = Token.mk
          (create_access_token (UserLogin.username user_login)
             ACCESS_TOKEN_EXPIRE_MINUTES now)
          "bearer"
  ∧ ∃ user, user ∈ users db
      ∧ User.username user = UserLogin.username user_login
      ∧ verify_password (UserLogin.password user_login) (User.hashed_password user) = true.
Proof.
  unfold api_auth.login, crud_user.authenticate_user.
  destruct (crud_user.get_user_by_username db (UserLogin.username user_login))
    as [user|] eqn:Hg; [|done].
  destruct (verify_password (UserLogin.password user_login) (User.hashed_password user))
    eqn:Hv; [|done].
  unfold crud_user.get_user_by_username in Hg. apply first_Some in Hg as [Hin Hname].
  intros [= <- <-]. rewrite Hname. split_and!; [done..|].
  exists user. done.
Qed.
End credentials.

Lemma registered_credentials_authenticate_witness :
  crud_user.authenticate_user (H := demo_security)
    (api_auth.register (H := demo_security) demo_db "s3"
       (UserCreate.mk "carol" "carolpw") 400).2 "carol" "guess"
  = None.
Proof.
  exact (registered_credentials_authenticate (H := demo_security) demo_db "s3"
           (UserCreate.mk "carol" "carolpw") 400 "guess" eq_refl).
Defined.

Lemma login_token_only_for_verified_credentials_witness :
  ∃ user, user ∈ users demo_db ∧ User.username user = "alice"
    ∧ verify_password (Security := demo_security) "secret1" (User.hashed_password user)
      = true.
Proof.
  destruct (login_token_only_for_verified_credentials (H := demo_security) demo_db
              (UserLogin.mk "alice" "secret1") 500 200
              (Token.mk "alice.1800000500" "bearer"))
    as (_ & _ & Hex).
  - vm_compute. reflexivity.
  - exact Hex.
Defined.

(** ** Updates and the collections of notes *)

Lemma filter_fmap_stable {A : Type} (P : A → Prop) `{!∀ x, Decision (P x)}
    (f : A → A) (l : list A) :
  (∀ x, P (f x) ↔ P x) → filter P (f <$> l) = f <$> filter P l.
Proof.
  intros Hf. induction l as [|x l IH]; [done|].
  rewrite fmap_cons. destruct (decide (P x)) as [HP|HP].
  - rewrite (filter_cons_True P (f x)) by (by apply Hf).
    rewrite (filter_cons_True P x) by done. by rewrite fmap_cons, IH.
  - rewrite (filter_cons_False P (f x)) by (by rewrite Hf).
    by rewrite (filter_cons_False P x) by done.
Qed.

(** X20.  An update never hides, adds or re-owns notes: whatever the
    outcome of the update handler, every user owns afterwards notes with
    the same ids and creation timestamps as before, as a collection (up to
    the order in which the store lists them). *)
Theorem update_note_keeps_every_collection
    (db : Database) (note_id : Z) (note_in : NoteUpdate) (u : User) (now : datetime)
    (user_id : Z) :
  let db' := (api_notes.update_note db note_id note_in u now).2 in
  (λ r, (Note.id r, Note.created_at r)) <$> notes_of db' user_id
  ≡ₚ (λ r, (Note.id r, Note.created_at r)) <$> notes_of db user_id.
Proof.
  intros db'. subst db'. unfold api_notes.update_note.
  destruct (crud_note.get_note db note_id (User.id u)) as [n|] eqn:Hg; simpl; [|done].
  unfold crud_note.update_note.
  destruct (commit_update_outcome db n
              (crud_note.apply_update_data n
                 (NoteUpdate.model_dump_exclude_unset note_in)) now)
    as [Ht Hb|Hn Hl|t e Ht Hd Hv|stored Hch Hf]; simpl; [done..|].
  unfold notes_of, crud_note.updated_rows. simpl.
  rewrite filter_fmap_stable
    by (intros x; case_decide; [by rewrite update_row_user_id|done]).
  rewrite <- list_fmap_compose.
  erewrite list_fmap_ext; [reflexivity|].
  intros i x _. simpl. case_decide; [|done].
  by rewrite update_row_id, update_row_created_at.
Qed.
